(** * agent-mux: session discovery, status classification and navigation

    A shallow embedding of the Go sources of agent-mux (packages
    [provider], [agent] and [tui]) together with the properties the
    specification states about them.

    Conventions of the embedding:
    - a Go [string] is a Rocq [string], i.e. its sequence of bytes; text
      outside ASCII appears as its UTF-8 encoding, as it does in Go;
    - a Go [int] is a [Z]; where the source computes [from + 1] or
      [from - 1] the 64-bit wrap-around is written out ([wrap64]);
    - a Go map is a [gmap]; reading a missing key gives the zero value
      ([default]);
    - a run-time panic (slice index out of range) is the outcome [None] of
      a function into [option]. *)

From Stdlib Require Import ZArith String Ascii List Bool Lia.
From stdpp Require Import base option list gmap strings fin_maps.

Local Open Scope Z_scope.

(** ** Go's [strings] package, on byte strings *)

Module GoStrings.

(** [len(s)] *)
Definition len (s : string) : nat := String.length s.

(** [strings.HasPrefix(s, prefix)] *)
Definition HasPrefix (s prefix : string) : bool := String.prefix prefix s.

(** [strings.HasSuffix(s, suffix)]:
    [len(s) >= len(suffix) && s[len(s)-len(suffix):] == suffix] *)
Definition HasSuffix (s suffix : string) : bool :=
  (len suffix <=? len s)%nat
  && String.eqb (String.substring (len s - len suffix) (len suffix) s) suffix.

(** [strings.Contains(s, substr)]: some position of [s] starts [substr]. *)
Fixpoint Contains (s substr : string) : bool :=
  HasPrefix s substr
  || match s with
     | EmptyString => false
     | String _ s' => Contains s' substr
     end.

(** [strings.Join(elems, sep)] *)
Fixpoint Join (elems : list string) (sep : string) : string :=
  match elems with
  | [] => ""
  | [e] => e
  | e :: rest => e +:+ sep +:+ Join rest sep
  end.

(** [strings.LastIndex(s, "/")] followed by [s[idx+1:]] when [idx >= 0]:
    the part of [s] after its last slash, [None] when [s] has no slash. *)
Fixpoint afterLastSlash (s : string) : option string :=
  match s with
  | EmptyString => None
  | String c s' =>
      match afterLastSlash s' with
      | Some t => Some t
      | None => if Ascii.eqb c "/" then Some s' else None
      end
  end.

(** [strings.Split(s, " ")] (and [strings.SplitSeq], which yields the same
    substrings in the same order): cut at every single space byte; the
    result never is empty, and adjacent spaces give empty substrings. *)
Fixpoint SplitSpace (s : string) : list string :=
  match s with
  | EmptyString => [""]
  | String c s' =>
      if Ascii.eqb c " " then "" :: SplitSpace s'
      else match SplitSpace s' with
           | [] => [String c ""]
           | t :: ts => String c t :: ts
           end
  end.

(** White space as [unicode.IsSpace] has it, on the UTF-8 encoding:
    the six ASCII bytes, U+0085, U+00A0, U+1680, U+2000..U+200A, U+2028,
    U+2029, U+202F, U+205F and U+3000.  [spaceWidth s] is the number of
    bytes of the white-space rune [s] starts with, 0 when it starts with
    none. *)
Definition asciiSpace (c : ascii) : bool :=
  let n := nat_of_ascii c in
  (n =? 9)%nat || (n =? 10)%nat || (n =? 11)%nat || (n =? 12)%nat
  || (n =? 13)%nat || (n =? 32)%nat.

Definition byteIs (c : ascii) (n : nat) : bool := (nat_of_ascii c =? n)%nat.

(** The three-byte encodings: U+1680, U+2000..U+200A, U+2028, U+2029,
    U+202F, U+205F, U+3000. *)
Definition space3 (a b c : ascii) : bool :=
  let nc := nat_of_ascii c in
  byteIs a 225 && byteIs b 154 && byteIs c 128
  || byteIs a 226 && byteIs b 128
     && ((128 <=? nc)%nat && (nc <=? 138)%nat
         || byteIs c 168 || byteIs c 169 || byteIs c 175)
  || byteIs a 226 && byteIs b 129 && byteIs c 159
  || byteIs a 227 && byteIs b 128 && byteIs c 128.

(** The two-byte encodings: U+0085 and U+00A0. *)
Definition space2 (a b : ascii) : bool :=
  byteIs a 194 && (byteIs b 133 || byteIs b 160).

Definition spaceWidth (s : string) : nat :=
  match s with
  | EmptyString => 0%nat
  | String a rest =>
      if asciiSpace a then 1%nat
      else match rest with
           | EmptyString => 0%nat
           | String b rest' =>
               if space2 a b then 2%nat
               else match rest' with
                    | EmptyString => 0%nat
                    | String c _ => if space3 a b c then 3%nat else 0%nat
                    end
           end
  end.

(** The same for the rune a string ends with, read on the reversed
    string (so the bytes of the rune come last byte first). *)
Definition spaceWidthRev (r : string) : nat :=
  match r with
  | EmptyString => 0%nat
  | String a rest =>
      if asciiSpace a then 1%nat
      else match rest with
           | EmptyString => 0%nat
           | String b rest' =>
               if space2 b a then 2%nat
               else match rest' with
                    | EmptyString => 0%nat
                    | String c _ => if space3 c b a then 3%nat else 0%nat
                    end
           end
  end.

Fixpoint dropBytes (n : nat) (s : string) : string :=
  match n, s with
  | S n', String _ s' => dropBytes n' s'
  | _, _ => s
  end.

(** [strings.TrimLeftFunc(s, unicode.IsSpace)]; the fuel is the length of
    the string, every round drops at least one byte. *)
Fixpoint trimLeftFuel (width : string -> nat) (fuel : nat) (s : string) : string :=
  match fuel with
  | O => s
  | S fuel' =>
      match width s with
      | O => s
      | w => trimLeftFuel width fuel' (dropBytes w s)
      end
  end.

Definition TrimLeftSpace (s : string) : string :=
  trimLeftFuel spaceWidth (len s) s.

Definition TrimRightSpace (s : string) : string :=
  let r := String.rev s in
  String.rev (trimLeftFuel spaceWidthRev (len r) r).

(** [strings.TrimSpace(s)]: leading and trailing white space removed. *)
Definition TrimSpace (s : string) : string := TrimRightSpace (TrimLeftSpace s).

End GoStrings.

Import GoStrings.

Definition nl : string := String (ascii_of_nat 10) "".
Definition tab : string := String (ascii_of_nat 9) "".


(** ** Package [provider]: process table and detector registry *)

(** [ProcessTable]: a snapshot of the process tree. *)
Record ProcessTable := {
  Children : gmap Z (list Z);   (* ppid -> child pids *)
  Comm : gmap Z string;         (* pid -> command basename *)
  Args : gmap Z string          (* pid -> full command line args *)
}.

(** Reading a Go map at a missing key gives the zero value. *)
Definition childrenOf (pt : ProcessTable) (pid : Z) : list Z :=
  default [] (Children pt !! pid).
Definition commOf (pt : ProcessTable) (pid : Z) : string :=
  default "" (Comm pt !! pid).
Definition argsOf (pt : ProcessTable) (pid : Z) : string :=
  default "" (Args pt !! pid).

(** [HasGrandchild], a method of [ProcessTable] *)
Definition HasGrandchild (pt : ProcessTable) (pid : Z) (name : string) : bool :=
  existsb (fun childPID =>
    existsb (fun grandchildPID =>
      let comm := commOf pt grandchildPID in
      String.eqb comm name || HasSuffix comm ("/" +:+ name))
      (childrenOf pt childPID))
    (childrenOf pt pid).

(** The [Provider] interface. *)
Record Provider := {
  Command : string;
  IsBusy : list string -> Z -> ProcessTable -> bool
}.

(** [Register] and [Get] on the registry, here passed explicitly. *)
Definition Register (p : Provider) (registry : gmap string Provider)
  : gmap string Provider := <[Command p := p]> registry.

Definition Get (registry : gmap string Provider) (cmd : string) : option Provider :=
  registry !! cmd.

Definition IsAgent (registry : gmap string Provider) (cmd : string) : bool :=
  bool_decide (is_Some (registry !! cmd)).

(** The four detectors of the repository. *)
Definition Claude : Provider :=
  {| Command := "claude";
     IsBusy := fun _ shellPID pt => HasGrandchild pt shellPID "caffeinate" |}.

Definition linesContain (needle : string) (lines : list string) : bool :=
  existsb (fun l => Contains l needle) (rev lines).

Definition Gemini : Provider :=
  {| Command := "gemini"; IsBusy := fun lines _ _ => linesContain "esc to cancel" lines |}.
Definition Codex : Provider :=
  {| Command := "codex"; IsBusy := fun lines _ _ => linesContain "esc to interrupt" lines |}.
Definition OpenCode : Provider :=
  {| Command := "opencode"; IsBusy := fun lines _ _ => linesContain "esc interrupt" lines |}.

(** The registry after the packages' [init] functions have run. *)
Definition registry0 : gmap string Provider :=
  Register OpenCode (Register Gemini (Register Codex (Register Claude ∅))).

(** The basename the source computes with [strings.LastIndex(s, "/")]. *)
Definition stripPath (s : string) : string := default s (afterLastSlash s).

(** The inner loop of [Resolve]: the first token of the argument string
    whose path-stripped form is registered. *)
Fixpoint resolveArgs (registry : gmap string Provider) (toks : list string)
  : option string :=
  match toks with
  | [] => None
  | arg :: rest =>
      let arg := stripPath arg in
      if IsAgent registry arg then Some arg else resolveArgs registry rest
  end.

(** The outer loop of [Resolve], over the children of the shell. *)
Fixpoint resolveChildren (registry : gmap string Provider) (pt : ProcessTable)
  (children : list Z) : string :=
  match children with
  | [] => ""
  | childPID :: rest =>
      let base := stripPath (commOf pt childPID) in
      if IsAgent registry base then base
      else match resolveArgs registry (SplitSpace (argsOf pt childPID)) with
           | Some arg => arg
           | None => resolveChildren registry pt rest
           end
  end.

(** [Resolve] *)
Definition Resolve (registry : gmap string Provider) (cmd : string) (shellPID : Z)
  (pt : ProcessTable) : string :=
  if IsAgent registry cmd then cmd
  else resolveChildren registry pt (childrenOf pt shellPID).

(** ** Package [agent]: panes and status classification *)

Inductive PaneStatus := StatusIdle | StatusBusy | StatusNeedsAttention.

Global Instance PaneStatus_eq_dec : EqDecision PaneStatus.
Proof. solve_decision. Defined.

(** [rawPane]: parsed tmux pane info before status detection. *)
Record rawPane := {
  r_target : string; r_session : string; r_window : string; r_pane : string;
  r_path : string; r_cmd : string; r_pid : Z
}.

Definition setCmd (r : rawPane) (cmd : string) : rawPane :=
  {| r_target := r_target r; r_session := r_session r; r_window := r_window r;
     r_pane := r_pane r; r_path := r_path r; r_cmd := cmd; r_pid := r_pid r |}.

(** [resolveAgentPanes] *)
Fixpoint resolveAgentPanes (registry : gmap string Provider) (raw : list rawPane)
  (pt : ProcessTable) : list rawPane :=
  match raw with
  | [] => []
  | r :: rest =>
      let cmd := Resolve registry (r_cmd r) (r_pid r) pt in
      if String.eqb cmd "" then resolveAgentPanes registry rest pt
      else setCmd r cmd :: resolveAgentPanes registry rest pt
  end.

(** The fixed attention substrings of [needsAttention]. *)
Definition attentionPatterns : list string :=
  [ "Do you want to proceed?"; "Do you want to allow"; "Allow once";
    "press Enter to approve";
    "Enter to select"; "Type something"; "Esc to cancel";
    "I'll wait for your"; "waiting for your response"; "Let me know when";
    "Please let me know"; "What would you like"; "How would you like";
    "Should I proceed"; "Would you like me to"; "please provide";
    "please specify"; "I need more information"; "Could you clarify";
    "awaiting your"; "ready when you are"; "let me know if you'd like";
    "Feel free to ask"; "Is there anything else"; "What else can I help";
    "Want me to go ahead"; "Shall I"; "Do you want me to"; "Ready to proceed" ].

(** The prompt-marker glyph U+276F, three bytes in UTF-8. *)
Definition promptGlyph : string := "❯".

(** The test of one line in the second loop of [needsAttention]. *)
Definition questionLine (l : string) : bool :=
  let line := TrimSpace l in
  if String.eqb line "" then false
  else HasSuffix line "?" && negb (HasPrefix line promptGlyph).

(** The second loop of [needsAttention]: [for i := len(lines)-1; i >= 0; i--],
    here over the reversed slice.  A blank line is skipped by [continue];
    a non-blank line that fails the test falls out of the [if] and the loop
    goes on to the line before it. *)
Fixpoint questionLoop (revLines : list string) : bool :=
  match revLines with
  | [] => false
  | l :: rest =>
      let line := TrimSpace l in
      if String.eqb line "" then questionLoop rest
      else if HasSuffix line "?" && negb (HasPrefix line promptGlyph) then true
      else questionLoop rest
  end.

(** [needsAttention] *)
Definition needsAttention (lines : list string) : bool :=
  let content := Join lines nl in
  if existsb (fun pattern => Contains content pattern) attentionPatterns then true
  else questionLoop (rev lines).

(** [detectStatus]; [capturePaneLines] asks tmux for the pane's content and
    is a parameter here. *)
Definition detectStatus (registry : gmap string Provider)
  (capturePaneLines : string -> list string)
  (shellPID : Z) (target cmd : string) (pt : ProcessTable) : PaneStatus :=
  let lines := capturePaneLines target in
  if needsAttention lines then StatusNeedsAttention
  else match Get registry cmd with
       | Some p => if IsBusy p lines shellPID pt then StatusBusy else StatusIdle
       | None => StatusIdle
       end.

(** [Pane]: a tmux pane running an agent.  A [time.Time] is the number of
    milliseconds since the Unix epoch. *)
Record Pane := {
  Target : string; Session : string; Window : string; PaneId : string;
  Path : string; PID : Z; Status : PaneStatus; LastActive : Z
}.

(** [Workspace]: panes grouped by working directory. *)
Record Workspace := {
  WsPath : string; ShortPath : string; GitBranch : string; Panes : list Pane
}.

(** ** Package [agent]: activity history *)

(** [historyEntry], the record one line of the log decodes to. *)
Record historyEntry := { Timestamp : Z; Project : string }.

(** One scanned line of the log, as [json.Unmarshal] leaves it: [None] when
    it returns an error, the decoded entry otherwise (a field the line does
    not have keeps its zero value). *)
Definition decodedLine : Type := option historyEntry.

(** The body of the scanning loop of [LastActiveByProject]. *)
Definition historyStep (result : gmap string Z) (line : decodedLine) : gmap string Z :=
  match line with
  | None => result
  | Some entry =>
      if String.eqb (Project entry) "" || (Timestamp entry =? 0) then result
      else
        let t := Timestamp entry in
        match result !! Project entry with
        | None => <[Project entry := t]> result
        | Some existing =>
            if existing <? t then <[Project entry := t]> result else result
        end
  end.

(** The scanning loop: [result := make(map...)], then one step per line. *)
Definition historyScan (lines : list decodedLine) : gmap string Z :=
  fold_left historyStep lines ∅.

(** What the host answers to the three calls [LastActiveByProject] makes:
    [os.UserHomeDir], [os.Stat] (the modification time, [None] on error) and
    [os.Open] followed by the scan (the decoded lines, [None] on error). *)
Record HistoryFile := {
  homeDirErr : bool;
  statModTime : option Z;
  openLines : option (list decodedLine)
}.

(** [historyCache]; [hc_data = None] is the nil map. *)
Record HistoryCache := { hc_modTime : Z; hc_data : option (gmap string Z) }.

Inductive FsEvent := EvStat | EvOpen.

(** [LastActiveByProject], with the cache passed in and out and the file
    system calls it makes logged.  The result [None] is the nil map. *)
Definition LastActiveByProject (fs : HistoryFile) (cache : HistoryCache)
  : option (gmap string Z) * HistoryCache * list FsEvent :=
  if homeDirErr fs then (None, cache, [])
  else match statModTime fs with
       | None => (None, cache, [EvStat])
       | Some mt =>
           let cached :=
             match hc_data cache with
             | Some d => if mt =? hc_modTime cache then Some d else None
             | None => None
             end in
           match cached with
           | Some d => (Some d, cache, [EvStat])
           | None =>
               match openLines fs with
               | None => (None, cache, [EvStat; EvOpen])
               | Some lines =>
                   let result := historyScan lines in
                   (Some result, {| hc_modTime := mt; hc_data := Some result |},
                    [EvStat; EvOpen])
               end
           end
       end.

(** ** Package [agent]: grouping panes into workspaces *)

(** What [GroupByWorkspace] reads from the host: the home directory ([""]
    when [os.UserHomeDir] fails) and the content of [dir/.git/HEAD]. *)
Record Host := { homeDir : string; gitHead : string -> option string }.

Definition dropTrailingSlashes (s : string) : string :=
  String.rev
    (trimLeftFuel (fun r => match r with
                            | String c _ => if Ascii.eqb c "/" then 1%nat else 0%nat
                            | EmptyString => 0%nat
                            end) (len s) (String.rev s)).

(** [filepath.Base] on a slash-separated path. *)
Definition Base (path : string) : string :=
  if String.eqb path "" then "."
  else
    let path := stripPath (dropTrailingSlashes path) in
    if String.eqb path "" then "/" else path.

(** [gitBranch] *)
Definition gitBranch (host : Host) (dir : string) : string :=
  match gitHead host dir with
  | None => ""
  | Some data =>
      let ref := TrimSpace data in
      let pre := "ref: refs/heads/" in
      if HasPrefix ref pre then dropBytes (len pre) ref
      else if (8 <=? len ref)%nat then String.substring 0 8 ref
      else ref
  end.

(** The first loop of [GroupByWorkspace]. *)
Definition groupStep (groups : gmap string (list Pane)) (p : Pane)
  : gmap string (list Pane) :=
  <[Path p := default [] (groups !! Path p) ++ [p]]> groups.

Definition mkWorkspace (host : Host) (path : string) (ps : list Pane) : Workspace :=
  let short := Base path in
  let short :=
    if String.eqb short "." || String.eqb short "/" then
      if negb (String.eqb (homeDir host) "") && HasPrefix path (homeDir host)
      then "~" +:+ dropBytes (len (homeDir host)) path
      else path
    else short in
  {| WsPath := path; ShortPath := short; GitBranch := gitBranch host path; Panes := ps |}.

(** [sort.Slice] by [Path]; the paths are the keys of a map, hence distinct,
    and the sorted order does not depend on the order the map is walked. *)
Fixpoint insertByPath (w : Workspace) (ws : list Workspace) : list Workspace :=
  match ws with
  | [] => [w]
  | w' :: rest =>
      if String.ltb (WsPath w') (WsPath w) then w' :: insertByPath w rest
      else w :: ws
  end.

(** [GroupByWorkspace] *)
Definition GroupByWorkspace (host : Host) (panes : list Pane) : list Workspace :=
  let groups := fold_left groupStep panes ∅ in
  foldr insertByPath []
    ((fun kv => mkWorkspace host kv.1 kv.2) <$> map_to_list groups).

(** ** Package [tui]: the flattened tree and cursor lookups *)

Inductive ItemKind := KindWorkspace | KindPane.

Global Instance ItemKind_eq_dec : EqDecision ItemKind.
Proof. solve_decision. Defined.

(** [TreeItem]: one visible row in the flattened tree. *)
Record TreeItem := { Kind : ItemKind; WorkspaceIndex : Z; PaneIndex : Z }.

Definition isPane (it : TreeItem) : bool := bool_decide (Kind it = KindPane).

(** Two's complement wrap-around of a Go [int] (64 bits). *)
Definition wrap64 (z : Z) : Z := (z + 2 ^ 63) mod 2 ^ 64 - 2 ^ 63.

(** [xs[i]]: [None] is the index-out-of-range panic. *)
Definition at_ {A} (xs : list A) (i : Z) : option A :=
  if i <? 0 then None else xs !! Z.to_nat i.

(** The inner loop of [FlattenTree]: [for pi := range ws.Panes]. *)
Fixpoint flattenPanes (wi : Z) (panes : list Pane) (pi : Z) (items : list TreeItem)
  : list TreeItem :=
  match panes with
  | [] => items
  | _ :: rest =>
      flattenPanes wi rest (pi + 1)
        (items ++ [{| Kind := KindPane; WorkspaceIndex := wi; PaneIndex := pi |}])
  end.

(** The outer loop: [for wi, ws := range workspaces]. *)
Fixpoint flattenLoop (workspaces : list Workspace) (wi : Z) (items : list TreeItem)
  : list TreeItem :=
  match workspaces with
  | [] => items
  | ws :: rest =>
      let items :=
        items ++ [{| Kind := KindWorkspace; WorkspaceIndex := wi; PaneIndex := 0 |}] in
      flattenLoop rest (wi + 1) (flattenPanes wi (Panes ws) 0 items)
  end.

(** [FlattenTree] *)
Definition FlattenTree (workspaces : list Workspace) : list TreeItem :=
  flattenLoop workspaces 0 [].

(** The loop of [NextPane]: [for i := from + 1; i < len(items); i++].  The
    fuel bounds the number of rounds; [i + 1] cannot overflow below
    [len(items)]. *)
Fixpoint nextLoop (items : list TreeItem) (from : Z) (fuel : nat) (i : Z) : option Z :=
  match fuel with
  | O => Some from
  | S fuel' =>
      if i <? Z.of_nat (length items) then
        it ← at_ items i;
        if isPane it then Some i else nextLoop items from fuel' (i + 1)
      else Some from
  end.

(** [NextPane] *)
Definition NextPane (items : list TreeItem) (from : Z) : option Z :=
  nextLoop items from (S (length items)) (wrap64 (from + 1)).

(** The loop of [PrevPane]: [for i := from - 1; i >= 0; i--]. *)
Fixpoint prevLoop (items : list TreeItem) (from : Z) (fuel : nat) (i : Z) : option Z :=
  match fuel with
  | O => Some from
  | S fuel' =>
      if 0 <=? i then
        it ← at_ items i;
        if isPane it then Some i else prevLoop items from fuel' (i - 1)
      else Some from
  end.

(** [PrevPane] *)
Definition PrevPane (items : list TreeItem) (from : Z) : option Z :=
  prevLoop items from (S (length items)) (wrap64 (from - 1)).

(** [NearestPane] *)
Definition NearestPane (items : list TreeItem) (from : Z) : option Z :=
  let n := Z.of_nat (length items) in
  if n =? 0 then Some 0
  else
    let from := if n <=? from then n - 1 else from in
    let from := if from <? 0 then 0 else from in
    it ← at_ items from;
    if isPane it then Some from
    else
      prev ← PrevPane items from;
      if negb (prev =? from) then Some prev
      else
        next ← NextPane items from;
        if negb (next =? from) then Some next else Some 0.

(** The loop of [FirstPane]: [for i, it := range items]. *)
Fixpoint firstPaneFrom (i : Z) (items : list TreeItem) : Z :=
  match items with
  | [] => 0
  | it :: rest => if isPane it then i else firstPaneFrom (i + 1) rest
  end.

(** [FirstPane] *)
Definition FirstPane (items : list TreeItem) : Z := firstPaneFrom 0 items.

(** [workspaces[it.WorkspaceIndex].Panes[it.PaneIndex]] *)
Definition paneOf (workspaces : list Workspace) (it : TreeItem) : option Pane :=
  ws ← at_ workspaces (WorkspaceIndex it);
  at_ (Panes ws) (PaneIndex it).

(** The loop of [FirstAttentionPane]; [&&] evaluates its right operand, and
    with it the two index expressions, for pane rows only. *)
Fixpoint firstAttentionFrom (workspaces : list Workspace) (all : list TreeItem)
  (i : Z) (items : list TreeItem) : option Z :=
  match items with
  | [] => Some (FirstPane all)
  | it :: rest =>
      if isPane it then
        p ← paneOf workspaces it;
        if bool_decide (Status p = StatusNeedsAttention) then Some i
        else firstAttentionFrom workspaces all (i + 1) rest
      else firstAttentionFrom workspaces all (i + 1) rest
  end.

(** [FirstAttentionPane] *)
Definition FirstAttentionPane (items : list TreeItem) (workspaces : list Workspace)
  : option Z :=
  firstAttentionFrom workspaces items 0 items.

(** ** Package [tui]: the model and its update function *)

(** The messages [Update] handles. *)
Inductive Msg :=
| WindowSizeMsg (width height : Z)
| panesLoadedMsg (panes : list Pane) (err : option string)
| previewLoadedMsg (target content : string)
| paneKilledMsg (err : option string)
| previewTickMsg
| panesTickMsg
| KeyMsg (key : string).

(** The commands [Update] returns; [CmdNil] is the nil command. *)
#[local] Set Warnings "-register-all".
Inductive Cmd :=
| CmdNil
| panesTickCmd
| previewTickCmd
| loadPanes
| loadPreview (target : string)
| killPane (target : string)
| Quit
| Batch (cmds : list Cmd).

(** The part of [viewport.Model] that [Update] touches. *)
Record Viewport := { vpWidth : Z; vpHeight : Z; vpContent : string }.

(** [Model] *)
Record Model := {
  workspaces : list Workspace;
  items : list TreeItem;
  cursor : Z;
  preview : Viewport;
  previewFor : string;
  lastPreviewContent : string;
  width : Z;
  height : Z;
  err : option string;
  loaded : bool;
  statusLoaded : bool;
  pendingD : bool
}.

Definition listWidth (m : Model) : Z := Z.max (Z.quot (width m * 25) 100) 20.
Definition previewWidth (m : Model) : Z := width m - listWidth m - 1.

(** The pane under the cursor, as [previewCmd] and [killCurrentPane] find
    it: [None] is a panic of the index expression, [Some None] the early
    [return nil]. *)
Definition currentTarget (m : Model) : option (option string) :=
  if (cursor m <? 0) || (Z.of_nat (length (items m)) <=? cursor m) then Some None
  else
    item ← at_ (items m) (cursor m);
    if negb (isPane item) then Some None
    else p ← paneOf (workspaces m) item; Some (Some (Target p)).

(** [previewCmd] *)
Definition previewCmd (m : Model) : option Cmd :=
  t ← currentTarget m;
  match t with
  | None => Some CmdNil
  | Some target =>
      if String.eqb target (previewFor m) then Some CmdNil
      else Some (loadPreview target)
  end.

(** [killCurrentPane] *)
Definition killCurrentPane (m : Model) : option Cmd :=
  t ← currentTarget m;
  match t with
  | None => Some CmdNil
  | Some target => Some (killPane target)
  end.

(** [strings.TrimRight(s, "\n")] *)
Definition TrimRightNewlines (s : string) : string :=
  String.rev
    (trimLeftFuel (fun r => match r with
                            | String c _ => if byteIs c 10 then 1%nat else 0%nat
                            | EmptyString => 0%nat
                            end) (len s) (String.rev s)).

(** Field updates of the value receiver [m]. *)
Definition setPanes (m : Model) (ws : list Workspace) (its : list TreeItem) (c : Z)
  : Model :=
  {| workspaces := ws; items := its; cursor := c; preview := preview m;
     previewFor := previewFor m; lastPreviewContent := lastPreviewContent m;
     width := width m; height := height m; err := None; loaded := true;
     statusLoaded := true; pendingD := pendingD m |}.

Definition setErr (m : Model) (e : option string) (ld : bool) : Model :=
  {| workspaces := workspaces m; items := items m; cursor := cursor m;
     preview := preview m; previewFor := previewFor m;
     lastPreviewContent := lastPreviewContent m; width := width m;
     height := height m; err := e; loaded := ld;
     statusLoaded := statusLoaded m; pendingD := pendingD m |}.

Definition setCursor (m : Model) (c : Z) : Model :=
  {| workspaces := workspaces m; items := items m; cursor := c;
     preview := preview m; previewFor := previewFor m;
     lastPreviewContent := lastPreviewContent m; width := width m;
     height := height m; err := err m; loaded := loaded m;
     statusLoaded := statusLoaded m; pendingD := pendingD m |}.

Definition setPendingD (m : Model) (d : bool) : Model :=
  {| workspaces := workspaces m; items := items m; cursor := cursor m;
     preview := preview m; previewFor := previewFor m;
     lastPreviewContent := lastPreviewContent m; width := width m;
     height := height m; err := err m; loaded := loaded m;
     statusLoaded := statusLoaded m; pendingD := d |}.

Definition setPreview (m : Model) (vp : Viewport) (pf last : string) : Model :=
  {| workspaces := workspaces m; items := items m; cursor := cursor m;
     preview := vp; previewFor := pf; lastPreviewContent := last;
     width := width m; height := height m; err := err m; loaded := loaded m;
     statusLoaded := statusLoaded m; pendingD := pendingD m |}.

Definition setSize (m : Model) (w h : Z) : Model :=
  let m1 :=
    {| workspaces := workspaces m; items := items m; cursor := cursor m;
       preview := preview m; previewFor := previewFor m;
       lastPreviewContent := lastPreviewContent m; width := w; height := h;
       err := err m; loaded := loaded m; statusLoaded := statusLoaded m;
       pendingD := pendingD m |} in
  setPreview m1
    {| vpWidth := previewWidth m1; vpHeight := h; vpContent := vpContent (preview m) |}
    (previewFor m) (lastPreviewContent m).

(** The case [panesLoadedMsg] of [Update]. *)
Definition updatePanesLoaded (host : Host) (m : Model) (panes : list Pane)
  (e : option string) : option (Model * Cmd) :=
  match e with
  | Some _ => Some (setErr m e true, panesTickCmd)
  | None =>
      let firstStatus := negb (statusLoaded m) in
      let ws := GroupByWorkspace host panes in
      let its := FlattenTree ws in
      c ← (if firstStatus then FirstAttentionPane its ws
           else NearestPane its (cursor m));
      let m' := setPanes m ws its c in
      cmd ← previewCmd m';
      let cmds := match cmd with
                  | CmdNil => [panesTickCmd]
                  | _ => [panesTickCmd; cmd]
                  end in
      Some (m', Batch cmds)
  end.

(** The case [tea.KeyMsg] of [Update]; the third component is the target
    handed to [SwitchToPane], if any. *)
Definition updateKey (m : Model) (key : string) : option (Model * Cmd * option string) :=
  if String.eqb key "d" then
    if pendingD m then
      let m := setPendingD m false in
      cmd ← killCurrentPane m; Some (m, cmd, None)
    else Some (setPendingD m true, CmdNil, None)
  else
    let m := setPendingD m false in
    if String.eqb key "q" || String.eqb key "esc" || String.eqb key "ctrl+c" then
      Some (m, Quit, None)
    else if String.eqb key "j" || String.eqb key "down" then
      next ← NextPane (items m) (cursor m);
      if negb (next =? cursor m) then
        let m := setCursor m next in
        cmd ← previewCmd m; Some (m, cmd, None)
      else Some (m, CmdNil, None)
    else if String.eqb key "k" || String.eqb key "up" then
      prev ← PrevPane (items m) (cursor m);
      if negb (prev =? cursor m) then
        let m := setCursor m prev in
        cmd ← previewCmd m; Some (m, cmd, None)
      else Some (m, CmdNil, None)
    else if String.eqb key "enter" then
      if (0 <=? cursor m) && (cursor m <? Z.of_nat (length (items m))) then
        item ← at_ (items m) (cursor m);
        if isPane item then
          pane ← paneOf (workspaces m) item;
          Some (m, Quit, Some (Target pane))
        else Some (m, CmdNil, None)
      else Some (m, CmdNil, None)
    else Some (m, CmdNil, None).

(** [Update]: the new model, the command, and the target handed to
    [SwitchToPane] when the enter key selected a pane. *)
Definition Update (host : Host) (m : Model) (msg : Msg)
  : option (Model * Cmd * option string) :=
  match msg with
  | WindowSizeMsg w h => Some (setSize m w h, CmdNil, None)
  | panesLoadedMsg panes e =>
      r ← updatePanesLoaded host m panes e; Some (r.1, r.2, None)
  | previewLoadedMsg target content =>
      let content := TrimRightNewlines content in
      let m' :=
        if String.eqb content (lastPreviewContent m)
        then setPreview m (preview m) target (lastPreviewContent m)
        else setPreview m
               {| vpWidth := vpWidth (preview m); vpHeight := vpHeight (preview m);
                  vpContent := content |} target content in
      Some (m', previewTickCmd, None)
  | previewTickMsg =>
      let m' := setPreview m (preview m) "" (lastPreviewContent m) in
      cmd ← previewCmd m';
      match cmd with
      | CmdNil => Some (m', previewTickCmd, None)
      | _ => Some (m', cmd, None)
      end
  | panesTickMsg => Some (m, loadPanes, None)
  | paneKilledMsg e =>
      match e with
      | Some _ => Some (setErr m e (loaded m), CmdNil, None)
      | None => Some (m, loadPanes, None)
      end
  | KeyMsg key => updateKey m key
  end.

(** ** The specification's reading of the question-mark rule *)

(** As the specification words it: the last non-blank captured line. *)
Fixpoint spec_lastNonBlank (revLines : list string) : option string :=
  match revLines with
  | [] => None
  | l :: rest =>
      if String.eqb (TrimSpace l) "" then spec_lastNonBlank rest else Some l
  end.

(** As the specification words it: that line ends with a question mark and
    does not begin with the prompt glyph. *)
Definition spec_lastLineRule (lines : list string) : bool :=
  match spec_lastNonBlank (rev lines) with
  | Some l => questionLine l
  | None => false
  end.

(** No fixed attention substring occurs in the captured text. *)
Definition noAttentionPattern (lines : list string) : Prop :=
  ∀ pattern, pattern ∈ attentionPatterns → Contains (Join lines nl) pattern = false.

(** ** The names [Resolve] tries, and the specification's reading *)

(** The names one child offers, in the order [Resolve] tries them: the
    basename of its command, then every token of its argument string. *)
Definition childNames (tokens : string → list string) (pt : ProcessTable)
  (childPID : Z) : list string :=
  stripPath (commOf pt childPID) :: (stripPath <$> tokens (argsOf pt childPID)).

(** The first registered name among those of the children of [shellPID],
    the empty string when there is none. *)
Definition firstRegistered (tokens : string → list string)
  (registry : gmap string Provider) (pt : ProcessTable) (shellPID : Z) : string :=
  default ""
    (head (List.filter (IsAgent registry)
             (flat_map (childNames tokens pt) (childrenOf pt shellPID)))).

(** [s] cut at every byte that satisfies [sep]. *)
Fixpoint splitAt (sep : ascii → bool) (s : string) : list string :=
  match s with
  | EmptyString => [""]
  | String c s' =>
      if sep c then "" :: splitAt sep s'
      else match splitAt sep s' with
           | [] => [String c ""]
           | t :: ts => String c t :: ts
           end
  end.

Definition nonEmpty (s : string) : bool := negb (String.eqb s "").

(** As the specification words it: the white-space-separated tokens of a
    string, the non-empty pieces between its white-space bytes. *)
Definition spec_whitespaceTokens (s : string) : list string :=
  List.filter nonEmpty (splitAt Ascii.is_space s).

(** As the specification words it: the tokens of the argument string are
    separated by white space. *)
Definition spec_Resolve (registry : gmap string Provider) (cmd : string)
  (shellPID : Z) (pt : ProcessTable) : string :=
  if IsAgent registry cmd then cmd
  else firstRegistered spec_whitespaceTokens registry pt shellPID.

(** ** Well-formed records of the activity log *)

(** A record the scan keeps: it decoded, and neither field is zero. *)
Definition validEntry (e : historyEntry) : Prop :=
  Project e ≠ "" ∧ Timestamp e ≠ 0.

(** [t] is the greatest timestamp of the kept records of [lines] whose
    project is [p]. *)
Definition maxTimestamp (lines : list decodedLine) (p : string) (t : Z) : Prop :=
  (∃ e, Some e ∈ lines ∧ validEntry e ∧ Project e = p ∧ Timestamp e = t)
  ∧ (∀ e, Some e ∈ lines → validEntry e → Project e = p → Timestamp e ≤ t).

(** A host on which the three calls succeed, and a cache that holds
    nothing yet. *)
Definition historyFileOf (mt : Z) (lines : list decodedLine) : HistoryFile :=
  {| homeDirErr := false; statModTime := Some mt; openLines := Some lines |}.

Definition emptyCache : HistoryCache := {| hc_modTime := 0; hc_data := None |}.

(** ** Rows of the flattened tree *)

(** Index [i] addresses a pane row of [items]. *)
Definition paneAt (items : list TreeItem) (i : Z) : bool :=
  match at_ items i with
  | Some it => isPane it
  | None => false
  end.

(** Index [i] addresses a workspace-header row of [items]. *)
Definition headerAt (items : list TreeItem) (i : Z) : bool :=
  match at_ items i with
  | Some it => negb (isPane it)
  | None => false
  end.

(** [from] brought into the bounds of a list of [n > 0] rows. *)
Definition clampIndex (n from : Z) : Z := Z.max 0 (Z.min from (n - 1)).

(** A Go slice has at most [MaxInt] elements. *)
Definition sliceLen {A} (xs : list A) : Prop := Z.of_nat (length xs) < 2 ^ 63.

(** The pane row at index [i] stands for a pane that needs attention. *)
Definition attentionAt (workspaces : list Workspace) (items : list TreeItem) (i : Z)
  : bool :=
  match at_ items i with
  | Some it =>
      isPane it
      && match paneOf workspaces it with
         | Some p => bool_decide (Status p = StatusNeedsAttention)
         | None => false
         end
  | None => false
  end.

(** Every pane row of [items] refers to a pane of [workspaces]. *)
Definition validRefs (workspaces : list Workspace) (items : list TreeItem) : Prop :=
  ∀ it, it ∈ items → isPane it = true → is_Some (paneOf workspaces it).

Definition headerRow (wi : Z) : TreeItem :=
  {| Kind := KindWorkspace; WorkspaceIndex := wi; PaneIndex := 0 |}.
Definition paneRow (wi pi : Z) : TreeItem :=
  {| Kind := KindPane; WorkspaceIndex := wi; PaneIndex := pi |}.

(** A pane and the one-pane workspace used in the examples below. *)
Definition examplePane (st : PaneStatus) : Pane :=
  {| Target := "main:2.1"; Session := "main"; Window := "2"; PaneId := "1";
     Path := "/a"; PID := 1; Status := st; LastActive := 0 |}.
Definition exampleWorkspace (panes : list Pane) : Workspace :=
  {| WsPath := "/a"; ShortPath := "a"; GitBranch := ""; Panes := panes |}.

(** The rows one workspace contributes: its header, then one pane row per
    pane, in order. *)
Definition rowsOf (wi : nat) (ws : Workspace) : list TreeItem :=
  headerRow (Z.of_nat wi)
  :: imap (fun pi _ => paneRow (Z.of_nat wi) (Z.of_nat pi)) (Panes ws).

(** The only white space of [s] is the space byte, as in the argument
    strings [ParseProcessTable] builds with [strings.Join(fields[3:], " ")]. *)
Fixpoint spaceOnly (s : string) : bool :=
  match s with
  | EmptyString => true
  | String c s' => (negb (Ascii.is_space c) || Ascii.eqb c " ") && spaceOnly s'
  end.

(** ** Package [agent]: targets, capture and kill *)

(** [s] has the byte [c]. *)
Fixpoint hasByte (c : ascii) (s : string) : bool :=
  match s with
  | EmptyString => false
  | String d s' => Ascii.eqb d c || hasByte c s'
  end.

(** [idx := strings.LastIndex(s, c)] with [s[:idx]] and [s[idx+1:]] when
    [idx >= 0]; [None] when [s] has no [c]. *)
Fixpoint cutLast (c : ascii) (s : string) : option (string * string) :=
  match s with
  | EmptyString => None
  | String d s' =>
      match cutLast c s' with
      | Some (a, b) => Some (String d a, b)
      | None => if Ascii.eqb d c then Some ("", s') else None
      end
  end.

(** [parseTarget]: "foo:2.1" is session "foo", window "2", pane "1". *)
Definition parseTarget (s : string) : string * string * string :=
  match cutLast ":" s with
  | None => (s, "", "")
  | Some (session, rest) =>
      match cutLast "." rest with
      | None => (session, rest, "")
      | Some (window, pane) => (session, window, pane)
      end
  end.

(** What [KillPane] runs after it has listed the panes of the window. *)
Inductive KillAction :=
| KillWindow (sessionWindow : string)
| KillPaneOnly (target : string).

(** [KillPane]; [listPanes] is what [tmux list-panes -t session:window]
    answers, [None] when it fails, and the result [None] is the error
    returned then. *)
Definition KillPane (listPanes : string → option string) (target : string)
  : option KillAction :=
  let '(session, window, _) := parseTarget target in
  let sessionWindow := session +:+ ":" +:+ window in
  match listPanes sessionWindow with
  | None => None
  | Some out =>
      let paneCount :=
        length (splitAt (fun c => byteIs c 10) (TrimSpace out)) in
      if (paneCount <=? 1)%nat then Some (KillWindow sessionWindow)
      else Some (KillPaneOnly target)
  end.

(** The lines [capturePaneLines] makes of the output of
    [tmux capture-pane], [None] when the command fails; the result [[]] is
    the nil slice. *)
Definition capturePaneLinesOf (out : option string) : list string :=
  match out with
  | None => []
  | Some out =>
      let lines := splitAt (fun c => byteIs c 10) (TrimRightNewlines out) in
      if (10 <? length lines)%nat then drop (length lines - 10) lines else lines
  end.

(** ** Package [tui]: text helpers and scrolling *)

(** [truncate] *)
Definition truncate (s : string) (maxLen : Z) : string :=
  if maxLen <=? 0 then ""
  else if Z.of_nat (len s) <=? maxLen then s
  else if maxLen <=? 3 then String.substring 0 (Z.to_nat maxLen) s
  else String.substring 0 (Z.to_nat (maxLen - 3)) s +:+ "...".

(** [VisibleSlice] *)
Definition VisibleSlice (total cursor height : Z) : Z :=
  if total <=? height then 0
  else
    let start := 0 in
    let start :=
      if height <=? cursor then wrap64 (wrap64 (cursor - height) + 1) else start in
    let start :=
      if total <? wrap64 (start + height) then wrap64 (total - height) else start in
    start.

(** The newline byte. *)
Definition nlByte : ascii := ascii_of_nat 10.

(** The number of panes of a list of workspaces. *)
Definition totalPanes (wss : list Workspace) : nat :=
  foldr (fun ws n => (length (Panes ws) + n)%nat) 0%nat wss.

(** The paths of a list of workspaces ascend strictly, in the byte order of
    Go's [<] on strings. *)
Fixpoint pathsAscend (wss : list Workspace) : Prop :=
  match wss with
  | [] => True
  | ws :: rest =>
      (∀ ws', ws' ∈ rest → String.ltb (WsPath ws) (WsPath ws') = true)
      ∧ pathsAscend rest
  end.

(** ** Package [tui]: the initial model and the cursor invariant *)

(** [NewModel]; [panes] and [e] are what [ListClaudePanesBasic] returns. *)
Definition NewModel (host : Host) (panes : list Pane) (e : option string) : Model :=
  let m :=
    {| workspaces := []; items := []; cursor := 0;
       preview := {| vpWidth := 40; vpHeight := 20; vpContent := "" |};
       previewFor := ""; lastPreviewContent := ""; width := 0; height := 0;
       err := None; loaded := true; statusLoaded := false; pendingD := false |} in
  match e with
  | Some _ => setErr m e true
  | None =>
      let wss := GroupByWorkspace host panes in
      let its := FlattenTree wss in
      {| workspaces := wss; items := its; cursor := FirstPane its;
         preview := preview m; previewFor := ""; lastPreviewContent := "";
         width := 0; height := 0; err := None; loaded := true;
         statusLoaded := false; pendingD := false |}
  end.

(** The state the update loop keeps: the items are the flattening of the
    workspaces, every workspace has a pane, and the cursor is on a pane
    row, or at 0 when there is no row at all. *)
Definition cursorOK (m : Model) : Prop :=
  items m = FlattenTree (workspaces m)
  ∧ sliceLen (items m)
  ∧ (∀ ws, ws ∈ workspaces m → Panes ws ≠ [])
  ∧ ((items m = [] ∧ cursor m = 0) ∨ paneAt (items m) (cursor m) = true).

(** ** Package [provider]: parsing the process table *)

(** The value of a decimal digit byte. *)
Definition digitOf (c : ascii) : option Z :=
  let n := nat_of_ascii c in
  if (48 <=? n)%nat && (n <=? 57)%nat then Some (Z.of_nat n - 48) else None.

Fixpoint digitsValue (acc : Z) (s : string) : option Z :=
  match s with
  | EmptyString => Some acc
  | String c s' =>
      match digitOf c with
      | Some d => digitsValue (acc * 10 + d) s'
      | None => None
      end
  end.

(** [strconv.Atoi]: the value and whether the error is nil.  A syntax error
    gives 0, a value out of the range of [int] the nearest bound. *)
Definition Atoi (s : string) : Z * bool :=
  let '(neg, body) :=
    match s with
    | String c s' =>
        if byteIs c 45 then (true, s')
        else if byteIs c 43 then (false, s')
        else (false, s)
    | EmptyString => (false, s)
    end in
  match body with
  | EmptyString => (0, false)
  | _ =>
      match digitsValue 0 body with
      | None => (0, false)
      | Some n =>
          if neg then (if n <=? 2 ^ 63 then (- n, true) else (- 2 ^ 63, false))
          else (if n <? 2 ^ 63 then (n, true) else (2 ^ 63 - 1, false))
      end
  end.

Definition flushField (cur : string) : list string :=
  if String.eqb cur "" then [] else [cur].

(** [strings.Fields]: the maximal runs of bytes between white-space runes.
    [cur] is the field being read and [skip] the number of bytes left of
    the white-space rune being passed. *)
Fixpoint fieldsFrom (skip : nat) (cur : string) (s : string) : list string :=
  match s with
  | EmptyString => flushField cur
  | String c s' =>
      match skip with
      | S k => fieldsFrom k cur s'
      | O =>
          match spaceWidth s with
          | O => fieldsFrom 0 (cur +:+ String c "") s'
          | S k => flushField cur ++ fieldsFrom k "" s'
          end
      end
  end.

Definition Fields (s : string) : list string := fieldsFrom 0 "" s.

Definition emptyTable : ProcessTable := {| Children := ∅; Comm := ∅; Args := ∅ |}.

(** The body of the loop of [ParseProcessTable]. *)
Definition parseProcessLine (pt : ProcessTable) (line : string) : ProcessTable :=
  match Fields line with
  | f0 :: f1 :: f2 :: rest =>
      let '(pid, ok1) := Atoi f0 in
      let '(ppid, ok2) := Atoi f1 in
      if ok1 && ok2 then
        {| Children := <[ppid := childrenOf pt ppid ++ [pid]]> (Children pt);
           Comm := <[pid := f2]> (Comm pt);
           Args := match rest with
                   | [] => Args pt
                   | _ => <[pid := Join rest " "]> (Args pt)
                   end |}
      else pt
  | _ => pt
  end.

(** [ParseProcessTable] *)
Definition ParseProcessTable (out : string) : ProcessTable :=
  fold_left parseProcessLine
    (splitAt (fun c => byteIs c 10) (TrimSpace out)) emptyTable.

(** [s] has no white-space byte. *)
Fixpoint noSpace (s : string) : bool :=
  match s with
  | EmptyString => true
  | String c s' => negb (Ascii.is_space c) && noSpace s'
  end.

(** What [ParseProcessTable] keeps of a table: every pid listed as a child
    has a command; a command is one field of a row, so it is not empty and
    has no white space; an argument string belongs to a pid that has a
    command, is not empty, and its only white space is single spaces. *)
Definition tableOK (pt : ProcessTable) : Prop :=
  (∀ ppid pid, pid ∈ childrenOf pt ppid → is_Some (Comm pt !! pid))
  ∧ (∀ pid c, Comm pt !! pid = Some c → noSpace c = true ∧ c ≠ "")
  ∧ (∀ pid a, Args pt !! pid = Some a →
       is_Some (Comm pt !! pid) ∧ spaceOnly a = true ∧ a ≠ "").

(** ** Package [agent]: listing the panes *)

(** The tab byte, the separator of the fields of a tmux row. *)
Definition tabByte : ascii := ascii_of_nat 9.

(** [s] cut at its first byte [c]: what is before and what is after it. *)
Fixpoint cutFirst (c : ascii) (s : string) : option (string * string) :=
  match s with
  | EmptyString => None
  | String d s' =>
      if Ascii.eqb d c then Some ("", s')
      else match cutFirst c s' with
           | Some (a, b) => Some (String d a, b)
           | None => None
           end
  end.

(** [strings.SplitN(s, c, n)] for [n > 0]: at most [n] substrings, the last
    one the unsplit remainder. *)
Fixpoint SplitN (c : ascii) (n : nat) (s : string) : list string :=
  match n with
  | O => []
  | S O => [s]
  | S n' =>
      match cutFirst c s with
      | Some (a, b) => a :: SplitN c n' b
      | None => [s]
      end
  end.

(** The number of bytes [c] in [s]. *)
Fixpoint countByte (c : ascii) (s : string) : nat :=
  match s with
  | EmptyString => 0%nat
  | String d s' => ((if Ascii.eqb d c then 1 else 0) + countByte c s')%nat
  end.

(** The body of the loop of [parseTmuxPanes]: [None] is [continue]. *)
Definition parsePaneLine (line : string) : option rawPane :=
  if String.eqb line "" then None
  else match SplitN tabByte 4 line with
       | [target; cmd; path; pidStr] =>
           let '(session, window, pane) := parseTarget target in
           Some {| r_target := target; r_session := session; r_window := window;
                   r_pane := pane; r_path := path; r_cmd := cmd;
                   r_pid := (Atoi pidStr).1 |}
       | _ => None
       end.

(** [parseTmuxPanes] *)
Definition parseTmuxPanes (out : string) : list rawPane :=
  omap parsePaneLine (splitAt (fun c => byteIs c 10) (TrimSpace out)).

(** [loadProcessTable]; [psOut] is the output of [ps], [None] when it
    fails. *)
Definition loadProcessTable (psOut : option string) : ProcessTable :=
  match psOut with
  | None => emptyTable
  | Some out => ParseProcessTable out
  end.

(** The zero [time.Time], in milliseconds since the Unix epoch. *)
Definition zeroTime : Z := -62135596800000.

(** [history[path]]; [None] is the nil map. *)
Definition lastActiveOf (history : option (gmap string Z)) (path : string) : Z :=
  match history with
  | None => zeroTime
  | Some h => default zeroTime (h !! path)
  end.

Definition paneOfRaw (history : option (gmap string Z)) (st : PaneStatus)
  (r : rawPane) : Pane :=
  {| Target := r_target r; Session := r_session r; Window := r_window r;
     PaneId := r_pane r; Path := r_path r; PID := r_pid r; Status := st;
     LastActive := lastActiveOf history (r_path r) |}.

(** [ListPanesBasic]; [tmuxOut], [history] and [psOut] are what the three
    concurrent reads return, and the result [None] is the error. *)
Definition ListPanesBasic (registry : gmap string Provider)
  (tmuxOut : option string) (history : option (gmap string Z))
  (psOut : option string) : option (list Pane) :=
  match tmuxOut with
  | None => None
  | Some out =>
      let pt := loadProcessTable psOut in
      let raw := resolveAgentPanes registry (parseTmuxPanes out) pt in
      Some (paneOfRaw history StatusIdle <$> raw)
  end.

(** [ListPanes] *)
Definition ListPanes (registry : gmap string Provider)
  (capturePaneLines : string → list string)
  (tmuxOut : option string) (history : option (gmap string Z))
  (psOut : option string) : option (list Pane) :=
  match tmuxOut with
  | None => None
  | Some out =>
      let pt := loadProcessTable psOut in
      let raw := resolveAgentPanes registry (parseTmuxPanes out) pt in
      Some ((fun r =>
               paneOfRaw history
                 (detectStatus registry capturePaneLines (r_pid r) (r_target r)
                    (r_cmd r) pt) r) <$> raw)
  end.

Definition withStatus (st : PaneStatus) (p : Pane) : Pane :=
  {| Target := Target p; Session := Session p; Window := Window p;
     PaneId := PaneId p; Path := Path p; PID := PID p; Status := st;
     LastActive := LastActive p |}.

(* ================================================================== *)
(** * Properties *)
(* ================================================================== *)

(** ** Byte strings *)

Lemma append_String c s t : String c s +:+ t = String c (s +:+ t).
Proof. reflexivity. Qed.

Lemma HasPrefix_empty s : HasPrefix s "" = true.
Proof. by destruct s. Qed.

Lemma HasPrefix_app s t p : HasPrefix s p = true → HasPrefix (s +:+ t) p = true.
Proof.
  unfold HasPrefix. revert s.
  induction p as [|c p IH]; intros s; [intros _; apply HasPrefix_empty|].
  destruct s as [|d s]; [done|]. rewrite append_String. simpl.
  destruct (ascii_dec c d); [auto | done].
Qed.

Lemma Contains_unfold s p :
  Contains s p = HasPrefix s p || match s with
                                  | EmptyString => false
                                  | String _ s' => Contains s' p
                                  end.
Proof. by destruct s. Qed.

Lemma Contains_HasPrefix s p : HasPrefix s p = true → Contains s p = true.
Proof. intros H. rewrite Contains_unfold, H. done. Qed.

Lemma Contains_app_l s t p : Contains s p = true → Contains (s +:+ t) p = true.
Proof.
  induction s as [|c s IH]; rewrite Contains_unfold; intros H.
  - rewrite orb_false_r in H. apply Contains_HasPrefix, HasPrefix_app, H.
  - apply orb_true_iff in H as [H|H].
    + apply Contains_HasPrefix, HasPrefix_app, H.
    + rewrite append_String, Contains_unfold, (IH H). apply orb_true_r.
Qed.

Lemma Contains_app_r s t p : Contains t p = true → Contains (s +:+ t) p = true.
Proof.
  intros H. induction s as [|c s IH]; [done|].
  rewrite append_String, Contains_unfold, IH. apply orb_true_r.
Qed.

Lemma Join_cons e rest sep :
  rest ≠ [] → Join (e :: rest) sep = e +:+ sep +:+ Join rest sep.
Proof. destruct rest; done. Qed.

Lemma Contains_Join lines sep l p :
  l ∈ lines → Contains l p = true → Contains (Join lines sep) p = true.
Proof.
  intros Hin Hc. induction lines as [|e rest IH]; [by apply elem_of_nil in Hin|].
  destruct rest as [|e' rest'].
  - apply list_elem_of_singleton in Hin as ->. done.
  - rewrite Join_cons by done. apply elem_of_cons in Hin as [->|Hin].
    + by apply Contains_app_l.
    + apply Contains_app_r, Contains_app_r. auto.
Qed.

Lemma HasSuffix_nonempty s suf :
  suf ≠ "" → HasSuffix s suf = true → s ≠ "".
Proof.
  intros Hsuf H ->. unfold HasSuffix in H. destruct suf; [done|]. done.
Qed.

(** ** Status classification *)

Lemma elem_of_rev {A} (x : A) (l : list A) : x ∈ rev l ↔ x ∈ l.
Proof. rewrite !list_elem_of_In. symmetry. apply in_rev. Qed.

Lemma questionLine_spec l :
  questionLine l = true ↔
  HasSuffix (TrimSpace l) "?" = true ∧ HasPrefix (TrimSpace l) promptGlyph = false.
Proof.
  unfold questionLine. destruct (String.eqb_spec (TrimSpace l) "") as [E|E].
  - rewrite E. split; [done | intros [H _]; done].
  - rewrite andb_true_iff, negb_true_iff. done.
Qed.

Lemma questionLoop_exists revLines :
  questionLoop revLines = true ↔ ∃ l, l ∈ revLines ∧ questionLine l = true.
Proof.
  induction revLines as [|l rest IH]; simpl.
  - split; [done | intros (l & Hl & _); by apply elem_of_nil in Hl].
  - assert (Hstep : (if String.eqb (TrimSpace l) "" then questionLoop rest
                     else if HasSuffix (TrimSpace l) "?"
                             && negb (HasPrefix (TrimSpace l) promptGlyph)
                          then true else questionLoop rest)
                    = questionLine l || questionLoop rest).
    { unfold questionLine. destruct (String.eqb (TrimSpace l) ""); [done|].
      by destruct (HasSuffix _ _ && _). }
    rewrite Hstep, orb_true_iff, IH. split.
    + intros [H | (l' & Hin & H)]; [exists l | exists l']; split; auto;
        [apply elem_of_cons; auto | apply elem_of_cons; auto].
    + intros (l' & Hin & H). apply elem_of_cons in Hin as [-> | Hin]; eauto.
Qed.

Lemma noAttentionPattern_existsb lines :
  noAttentionPattern lines ↔
  existsb (fun pattern => Contains (Join lines nl) pattern) attentionPatterns = false.
Proof.
  unfold noAttentionPattern. split.
  - intros H. apply not_true_is_false. intros (p & Hin & Hp)%existsb_exists.
    apply list_elem_of_In in Hin. rewrite (H p Hin) in Hp. done.
  - intros H p Hin. apply not_true_is_false. intros Hp.
    assert (existsb (fun pattern => Contains (Join lines nl) pattern)
              attentionPatterns = true) as Ht.
    { apply existsb_exists. exists p. split; [by apply list_elem_of_In | done]. }
    congruence.
Qed.

(** C1 (as the code has it).  For captured lines that contain none of the
    fixed attention substrings, [needsAttention] reports attention exactly
    when some captured line, trimmed of white space, ends with a question
    mark and does not begin with the prompt glyph: every captured line is
    tested, not only the last non-blank one. *)
Theorem needsAttention_any_question_line (lines : list string) :
  noAttentionPattern lines →
  needsAttention lines = true ↔
  ∃ l, l ∈ lines
       ∧ HasSuffix (TrimSpace l) "?" = true
       ∧ HasPrefix (TrimSpace l) promptGlyph = false.
Proof.
  intros Hno. apply noAttentionPattern_existsb in Hno.
  unfold needsAttention. rewrite Hno, questionLoop_exists.
  split; intros (l & Hin & Hq); exists l.
  - rewrite elem_of_rev in Hin. apply questionLine_spec in Hq as [Hs Hp]. done.
  - split; [by rewrite elem_of_rev | by apply questionLine_spec].
Qed.

Lemma needsAttention_any_question_line_witness :
  noAttentionPattern ["Is this right?"; "ok"]
  ∧ (needsAttention ["Is this right?"; "ok"] = true ↔
     ∃ l, l ∈ ["Is this right?"; "ok"]
          ∧ HasSuffix (TrimSpace l) "?" = true
          ∧ HasPrefix (TrimSpace l) promptGlyph = false).
Proof.
  assert (H : noAttentionPattern ["Is this right?"; "ok"]).
  { apply noAttentionPattern_existsb. vm_compute. reflexivity. }
  split; [exact H | exact (needsAttention_any_question_line _ H)].
Defined.

(** C1 as stated fails: with the captured lines ["Is this right?"; "ok"] no
    attention substring occurs and the last non-blank line, "ok", does not
    end with a question mark, yet the earlier line triggers the rule. *)
Lemma needsAttention_last_line_only_counterexample :
  noAttentionPattern ["Is this right?"; "ok"]
  ∧ spec_lastLineRule ["Is this right?"; "ok"] = false
  ∧ needsAttention ["Is this right?"; "ok"] = true
  ∧ ¬ (∀ lines, noAttentionPattern lines →
         needsAttention lines = true ↔ spec_lastLineRule lines = true).
Proof.
  assert (H : noAttentionPattern ["Is this right?"; "ok"]).
  { apply noAttentionPattern_existsb. vm_compute. reflexivity. }
  assert (H1 : spec_lastLineRule ["Is this right?"; "ok"] = false)
    by (vm_compute; reflexivity).
  assert (H2 : needsAttention ["Is this right?"; "ok"] = true)
    by (vm_compute; reflexivity).
  repeat split; try assumption.
  intros Hall. apply (Hall _ H) in H2. congruence.
Qed.

Lemma needsAttention_of_pattern lines l p :
  l ∈ lines → p ∈ attentionPatterns → Contains l p = true →
  needsAttention lines = true.
Proof.
  intros Hl Hp Hc. unfold needsAttention.
  assert (existsb (fun pattern => Contains (Join lines nl) pattern)
            attentionPatterns = true) as ->; [|done].
  apply existsb_exists. exists p. split; [by apply list_elem_of_In|].
  by apply Contains_Join with l.
Qed.

(** C2.  [detectStatus] yields one of the three statuses, and attention goes
    before busy: when a captured line contains one of the attention
    substrings, in particular when the last captured line is
    "Do you want to proceed? (y/n)", the status is [StatusNeedsAttention]
    for every registry, hence whatever the detector's [IsBusy] answers. *)
Theorem detectStatus_attention_first
  (registry : gmap string Provider) (capturePaneLines : string → list string)
  (shellPID : Z) (target cmd : string) (pt : ProcessTable) :
  let st := detectStatus registry capturePaneLines shellPID target cmd pt in
  (st = StatusIdle ∨ st = StatusBusy ∨ st = StatusNeedsAttention)
  ∧ ((∃ l p, l ∈ capturePaneLines target ∧ p ∈ attentionPatterns
             ∧ Contains l p = true) → st = StatusNeedsAttention)
  ∧ ((∃ before, capturePaneLines target
                = before ++ ["Do you want to proceed? (y/n)"]) →
     st = StatusNeedsAttention).
Proof.
  intros st.
  assert (Hpat : (∃ l p, l ∈ capturePaneLines target ∧ p ∈ attentionPatterns
                         ∧ Contains l p = true) → st = StatusNeedsAttention).
  { intros (l & p & Hl & Hp & Hc). subst st. unfold detectStatus.
    by rewrite (needsAttention_of_pattern _ l p Hl Hp Hc). }
  split; [|split].
  - destruct st; auto.
  - exact Hpat.
  - intros [before Hb]. apply Hpat.
    exists "Do you want to proceed? (y/n)", "Do you want to proceed?".
    split; [rewrite Hb; apply elem_of_app; right; apply list_elem_of_singleton; done|].
    split; [apply elem_of_cons; by left | by vm_compute].
Qed.

Lemma detectStatus_attention_first_witness :
  detectStatus registry0
    (fun _ => ["esc to cancel"; "Do you want to proceed? (y/n)"])
    1 "main:2.1" "gemini" {| Children := ∅; Comm := ∅; Args := ∅ |}
  = StatusNeedsAttention
  ∧ IsBusy Gemini ["esc to cancel"; "Do you want to proceed? (y/n)"] 1
      {| Children := ∅; Comm := ∅; Args := ∅ |} = true.
Proof.
  split; [|by vm_compute].
  apply (detectStatus_attention_first registry0
           (fun _ => ["esc to cancel"; "Do you want to proceed? (y/n)"])
           1 "main:2.1" "gemini" {| Children := ∅; Comm := ∅; Args := ∅ |}).
  exists ["esc to cancel"]. reflexivity.
Defined.

(** ** Detector resolution *)

Lemma resolveArgs_head registry toks :
  resolveArgs registry toks
  = head (List.filter (IsAgent registry) (stripPath <$> toks)).
Proof.
  induction toks as [|arg rest IH]; [done|]. simpl.
  destruct (IsAgent registry (stripPath arg)); [done | exact IH].
Qed.

Lemma resolveChildren_first registry pt children :
  resolveChildren registry pt children
  = default ""
      (head (List.filter (IsAgent registry)
               (flat_map (childNames SplitSpace pt) children))).
Proof.
  induction children as [|c rest IH]; [done|]. simpl.
  destruct (IsAgent registry (stripPath (commOf pt c))) eqn:E; [done|].
  rewrite List.filter_app, resolveArgs_head.
  destruct (List.filter (IsAgent registry)
              (stripPath <$> SplitSpace (argsOf pt c))) as [|a l]; [exact IH | done].
Qed.

Lemma resolveAgentPanes_filter registry raw pt :
  resolveAgentPanes registry raw pt
  = (fun r => setCmd r (Resolve registry (r_cmd r) (r_pid r) pt))
      <$> List.filter
            (fun r => negb (String.eqb (Resolve registry (r_cmd r) (r_pid r) pt) ""))
            raw.
Proof.
  induction raw as [|r rest IH]; [done|]. simpl.
  destruct (String.eqb (Resolve registry (r_cmd r) (r_pid r) pt) ""); simpl;
    by rewrite IH.
Qed.

Lemma SplitSpace_splitAt s : SplitSpace s = splitAt (fun c => Ascii.eqb c " ") s.
Proof. induction s as [|c s IH]; simpl; [done|]. by rewrite IH. Qed.

Lemma splitAt_spaceOnly s :
  spaceOnly s = true → splitAt Ascii.is_space s = SplitSpace s.
Proof.
  induction s as [|c s IH]; simpl; [done|].
  intros [Hc Hs]%andb_true_iff. rewrite (IH Hs).
  destruct (Ascii.eqb_spec c " ") as [->|Hne]; [done|].
  rewrite orb_false_r in Hc. apply negb_true_iff in Hc. by rewrite Hc.
Qed.

Lemma filter_registered_nonEmpty registry toks :
  IsAgent registry "" = false →
  List.filter (IsAgent registry) (stripPath <$> List.filter nonEmpty toks)
  = List.filter (IsAgent registry) (stripPath <$> toks).
Proof.
  intros Hreg. induction toks as [|t toks IH]; [done|]. simpl.
  unfold nonEmpty at 1. destruct (String.eqb_spec t "") as [->|Hne]; simpl.
  - change (stripPath "") with "". by rewrite Hreg.
  - fold (stripPath <$> List.filter nonEmpty toks) (stripPath <$> toks).
    by rewrite IH.
Qed.

Lemma childNames_filter registry pt c :
  IsAgent registry "" = false → spaceOnly (argsOf pt c) = true →
  List.filter (IsAgent registry) (childNames SplitSpace pt c)
  = List.filter (IsAgent registry) (childNames spec_whitespaceTokens pt c).
Proof.
  intros Hreg Hs. unfold childNames, spec_whitespaceTokens.
  rewrite splitAt_spaceOnly by done. cbn [List.filter].
  by rewrite filter_registered_nonEmpty.
Qed.

(** Where the argument strings of the children have no white space but
    single spaces and the empty name is not registered, [Resolve] is what
    the specification describes. *)
Lemma Resolve_spec_Resolve registry cmd shellPID pt :
  IsAgent registry "" = false →
  (∀ c, c ∈ childrenOf pt shellPID → spaceOnly (argsOf pt c) = true) →
  Resolve registry cmd shellPID pt = spec_Resolve registry cmd shellPID pt.
Proof.
  intros Hreg Hargs. unfold Resolve, spec_Resolve.
  destruct (IsAgent registry cmd); [done|].
  rewrite resolveChildren_first. unfold firstRegistered. do 2 f_equal.
  induction (childrenOf pt shellPID) as [|c cs IH]; [done|].
  change (flat_map (childNames SplitSpace pt) (c :: cs))
    with (childNames SplitSpace pt c ++ flat_map (childNames SplitSpace pt) cs).
  change (flat_map (childNames spec_whitespaceTokens pt) (c :: cs))
    with (childNames spec_whitespaceTokens pt c
          ++ flat_map (childNames spec_whitespaceTokens pt) cs).
  rewrite !List.filter_app, IH.
  - f_equal. apply childNames_filter; [done|]. apply Hargs, elem_of_cons. by left.
  - intros c' Hc'. apply Hargs, elem_of_cons. by right.
Qed.

(** C3 (as the code has it).  [Resolve] returns the observed command when
    it is registered; otherwise the first registered name among the direct
    children of the owner, each child offering the basename of its command
    and then the path-stripped tokens of its argument string, cut at single
    space bytes; the empty string when nothing matches.  [resolveAgentPanes]
    keeps, in order and with the resolved name, exactly the panes whose
    resolution is not empty. *)
Theorem Resolve_first_registered
  (registry : gmap string Provider) (cmd : string) (shellPID : Z)
  (pt : ProcessTable) (raw : list rawPane) :
  Resolve registry cmd shellPID pt
  = (if IsAgent registry cmd then cmd
     else firstRegistered SplitSpace registry pt shellPID)
  ∧ resolveAgentPanes registry raw pt
    = (fun r => setCmd r (Resolve registry (r_cmd r) (r_pid r) pt))
        <$> List.filter
              (fun r => negb (String.eqb (Resolve registry (r_cmd r) (r_pid r) pt) ""))
              raw
  ∧ Forall (fun r => r_cmd r ≠ "") (resolveAgentPanes registry raw pt).
Proof.
  split; [|split].
  - unfold Resolve, firstRegistered. destruct (IsAgent registry cmd); [done|].
    apply resolveChildren_first.
  - apply resolveAgentPanes_filter.
  - induction raw as [|r rest IH]; simpl; [constructor|].
    destruct (String.eqb_spec (Resolve registry (r_cmd r) (r_pid r) pt) "");
      [exact IH | by constructor].
Qed.

(** C3 as stated fails where the argument string has white space other than
    single spaces: for a child [node] with arguments "gemini<TAB>--yolo" the
    white-space tokens are "gemini" and "--yolo", but the code sees the one
    token "gemini<TAB>--yolo", finds nothing and returns the empty string. *)
Lemma Resolve_whitespace_tokens_counterexample :
  let pt := {| Children := {[1 := [2]]}; Comm := {[2 := "node"]};
               Args := {[2 := "gemini" +:+ tab +:+ "--yolo"]} |} in
  spec_Resolve registry0 "node" 1 pt = "gemini"
  ∧ Resolve registry0 "node" 1 pt = ""
  ∧ ¬ (∀ registry cmd shellPID pt,
         Resolve registry cmd shellPID pt = spec_Resolve registry cmd shellPID pt).
Proof.
  intros pt.
  assert (H1 : spec_Resolve registry0 "node" 1 pt = "gemini") by (by vm_compute).
  assert (H2 : Resolve registry0 "node" 1 pt = "") by (by vm_compute).
  repeat split; try assumption.
  intros Hall. specialize (Hall registry0 "node" 1 pt). congruence.
Qed.

(** ** Activity history *)

Lemma historyScan_snoc lines x :
  historyScan (lines ++ [x]) = historyStep (historyScan lines) x.
Proof. unfold historyScan. by rewrite fold_left_app. Qed.

(** The invariant of the scanning loop. *)
Definition scanInv (lines : list decodedLine) (result : gmap string Z) : Prop :=
  ∀ p, match result !! p with
       | None => ∀ e, Some e ∈ lines → validEntry e → Project e ≠ p
       | Some t => maxTimestamp lines p t
       end.

Lemma scanInv_skip lines x result :
  (∀ e, x = Some e → ¬ validEntry e) →
  scanInv lines result → scanInv (lines ++ [x]) result.
Proof.
  intros Hx Hinv p. specialize (Hinv p).
  assert (Hin : ∀ e, Some e ∈ lines ++ [x] → validEntry e → Some e ∈ lines).
  { intros e [H | H%list_elem_of_singleton]%elem_of_app Hv; [done|].
    exfalso. by apply (Hx e). }
  destruct (result !! p) as [t|].
  - destruct Hinv as [(e & He & Hv & Hp & Ht) Hmax]. split.
    + exists e. split; [apply elem_of_app; by left | done].
    + intros e' He' Hv'. apply Hmax; auto.
  - intros e He Hv. apply Hinv; auto.
Qed.

Lemma scanInv_step lines x result :
  scanInv lines result → scanInv (lines ++ [x]) (historyStep result x).
Proof.
  intros Hinv. unfold historyStep. destruct x as [e0|].
  2: { apply scanInv_skip; [intros e; done | done]. }
  destruct (String.eqb_spec (Project e0) "") as [E1|E1]; simpl.
  { apply scanInv_skip; [|done]. intros e [= <-] [H _]. done. }
  destruct (Z.eqb_spec (Timestamp e0) 0) as [E2|E2].
  { apply scanInv_skip; [|done]. intros e [= <-] [_ H]. done. }
  assert (Hv0 : validEntry e0) by done.
  assert (Hin0 : Some e0 ∈ lines ++ [Some e0]).
  { apply elem_of_app. right. by apply list_elem_of_singleton. }
  assert (Hsplit : ∀ e, Some e ∈ lines ++ [Some e0] → Some e ∈ lines ∨ e = e0).
  { intros e [H | H%list_elem_of_singleton]%elem_of_app; [by left | right; congruence]. }
  assert (Hother : ∀ p, p ≠ Project e0 →
            match result !! p with
            | None => ∀ e, Some e ∈ lines ++ [Some e0] → validEntry e → Project e ≠ p
            | Some t => maxTimestamp (lines ++ [Some e0]) p t
            end).
  { intros p Hp. specialize (Hinv p). destruct (result !! p) as [t|].
    - destruct Hinv as [(e & He & Hv & Hpe & Ht) Hmax]. split.
      + exists e. split; [apply elem_of_app; by left | done].
      + intros e' [He' | ->]%Hsplit Hv' Hp'; [by apply Hmax | congruence].
    - intros e [He | ->]%Hsplit Hv; [by apply Hinv | congruence]. }
  pose proof (Hinv (Project e0)) as Hq.
  destruct (result !! Project e0) as [existing|] eqn:Eq.
  - destruct Hq as [(e & He & Hv & Hpe & Ht) Hmax].
    destruct (Z.ltb_spec existing (Timestamp e0)) as [Hlt|Hge].
    + intros p. destruct (decide (p = Project e0)) as [->|Hp].
      * rewrite lookup_insert_eq. split; [by exists e0|].
        intros e' [He' | ->]%Hsplit Hv' Hp'; [|lia].
        specialize (Hmax e' He' Hv' Hp'). lia.
      * rewrite lookup_insert_ne by done. by apply Hother.
    + intros p. destruct (decide (p = Project e0)) as [->|Hp].
      * rewrite Eq. split.
        -- exists e. split; [apply elem_of_app; by left | done].
        -- intros e' [He' | ->]%Hsplit Hv' Hp'; [by apply Hmax | lia].
      * by apply Hother.
  - intros p. destruct (decide (p = Project e0)) as [->|Hp].
    + rewrite lookup_insert_eq. split; [by exists e0|].
      intros e' [He' | ->]%Hsplit Hv' Hp'; [|lia].
      exfalso. by apply (Hq e' He' Hv').
    + rewrite lookup_insert_ne by done. by apply Hother.
Qed.

Lemma historyScan_inv lines : scanInv lines (historyScan lines).
Proof.
  induction lines as [|x lines IH] using rev_ind.
  - intros p. unfold historyScan. simpl. rewrite lookup_empty.
    intros e He. by apply elem_of_nil in He.
  - rewrite historyScan_snoc. by apply scanInv_step.
Qed.

Lemma historyScan_lookup lines p t :
  historyScan lines !! p = Some t ↔ maxTimestamp lines p t.
Proof.
  pose proof (historyScan_inv lines p) as H. split.
  - intros E. by rewrite E in H.
  - intros [(e & He & Hv & Hp & Ht) Hmax].
    destruct (historyScan lines !! p) as [t'|].
    + destruct H as [(e' & He' & Hv' & Hp' & Ht') Hmax'].
      specialize (Hmax e' He' Hv' Hp'). specialize (Hmax' e He Hv Hp).
      f_equal. lia.
    + exfalso. by apply (H e He Hv).
Qed.

(** C4.  On a host where the log can be read and with nothing cached,
    [LastActiveByProject] returns the mapping of the scan: a project is
    mapped to [t] exactly when [t] is the greatest timestamp of the records
    with that project that decoded and have a non-empty project and a
    non-zero timestamp; the other lines are skipped.  The records
    (100, "/a"), (50, "/a"), (200, "/b") give "/a" -> 100, "/b" -> 200. *)
Theorem LastActiveByProject_max_timestamp (mt : Z) (lines : list decodedLine) :
  (LastActiveByProject (historyFileOf mt lines) emptyCache).1.1
  = Some (historyScan lines)
  ∧ (∀ p t, historyScan lines !! p = Some t ↔ maxTimestamp lines p t)
  ∧ historyScan [ Some {| Timestamp := 100; Project := "/a" |};
                  Some {| Timestamp := 50; Project := "/a" |};
                  Some {| Timestamp := 200; Project := "/b" |} ]
    = {[ "/a" := 100; "/b" := 200 ]}.
Proof.
  split; [done|]. split; [apply historyScan_lookup|].
  apply map_eq. intros k. unfold historyScan, historyStep. simpl.
  by vm_compute.
Qed.

(** C5.  With the modification time the cache was filled for, the call
    returns the cached mapping and cache unchanged and only stats the file,
    whatever the file holds by then; so of two consecutive calls that see
    the same modification time the second returns what the first returned
    without opening the file.  With another modification time the file is
    scanned anew and the result alone, nothing of the cached mapping,
    becomes the new cache. *)
Theorem LastActiveByProject_cached_by_modTime
  (mt mt' : Z) (d : gmap string Z) (lines lines' : list decodedLine)
  (cache0 : HistoryCache) :
  mt ≠ mt' →
  LastActiveByProject (historyFileOf mt lines) {| hc_modTime := mt; hc_data := Some d |}
  = (Some d, {| hc_modTime := mt; hc_data := Some d |}, [EvStat])
  ∧ (let first := LastActiveByProject (historyFileOf mt lines) cache0 in
     let second := LastActiveByProject (historyFileOf mt lines') first.1.2 in
     is_Some first.1.1
     ∧ second.1.1 = first.1.1
     ∧ second.1.2 = first.1.2
     ∧ second.2 = [EvStat])
  ∧ LastActiveByProject (historyFileOf mt' lines') {| hc_modTime := mt; hc_data := Some d |}
    = (Some (historyScan lines'),
       {| hc_modTime := mt'; hc_data := Some (historyScan lines') |},
       [EvStat; EvOpen]).
Proof.
  intros Hne. split; [|split].
  - unfold LastActiveByProject. simpl. by rewrite Z.eqb_refl.
  - destruct cache0 as [m0 [d0|]]; unfold LastActiveByProject; simpl.
    + destruct (Z.eqb_spec mt m0) as [->|Hm]; simpl.
      * rewrite Z.eqb_refl. eauto.
      * rewrite Z.eqb_refl. eauto.
    + rewrite Z.eqb_refl. eauto.
  - unfold LastActiveByProject. simpl.
    destruct (Z.eqb_spec mt' mt) as [E|_]; [congruence | done].
Qed.

Lemma LastActiveByProject_cached_by_modTime_witness :
  LastActiveByProject
    (historyFileOf 7 [Some {| Timestamp := 100; Project := "/a" |}])
    {| hc_modTime := 5; hc_data := Some {[ "/old" := 1 ]} |}
  = (Some {[ "/a" := 100 ]},
     {| hc_modTime := 7; hc_data := Some {[ "/a" := 100 ]} |},
     [EvStat; EvOpen]).
Proof.
  assert (Hne : (5 : Z) ≠ 7) by lia.
  pose proof (LastActiveByProject_cached_by_modTime 5 7 {[ "/old" := 1 ]} []
                [Some {| Timestamp := 100; Project := "/a" |}] emptyCache Hne)
    as (_ & _ & H).
  exact H.
Defined.

(** ** Cursor lookups *)

Lemma at__Some {A} (xs : list A) (i : Z) :
  0 ≤ i < Z.of_nat (length xs) → is_Some (at_ xs i).
Proof.
  intros [H0 H1]. unfold at_. destruct (Z.ltb_spec i 0); [lia|].
  apply lookup_lt_is_Some. lia.
Qed.

Lemma at__None {A} (xs : list A) (i : Z) :
  i < 0 ∨ Z.of_nat (length xs) ≤ i → at_ xs i = None.
Proof.
  intros H. unfold at_. destruct (Z.ltb_spec i 0); [done|].
  apply lookup_ge_None. lia.
Qed.

Lemma at__range {A} (xs : list A) (i : Z) (x : A) :
  at_ xs i = Some x → 0 ≤ i < Z.of_nat (length xs).
Proof.
  unfold at_. destruct (Z.ltb_spec i 0) as [|Hi]; [done|].
  intros Hlk%lookup_lt_Some. lia.
Qed.

Lemma paneAt_range items i : paneAt items i = true → 0 ≤ i < Z.of_nat (length items).
Proof.
  unfold paneAt. destruct (at_ items i) eqn:E; [|done]. intros _.
  by apply at__range in E.
Qed.

Lemma paneAt_outside items i :
  i < 0 ∨ Z.of_nat (length items) ≤ i → paneAt items i = false.
Proof. intros H. unfold paneAt. by rewrite at__None. Qed.

Lemma wrap64_id z : - 2 ^ 63 ≤ z < 2 ^ 63 → wrap64 z = z.
Proof. intros H. unfold wrap64. rewrite Z.mod_small; lia. Qed.

(** The forward scan finds the first pane row at or after [i]. *)
Lemma nextLoop_spec items from fuel i :
  0 ≤ i → (Z.to_nat (Z.of_nat (length items) - i) < fuel)%nat →
  ∃ r, nextLoop items from fuel i = Some r
       ∧ ((i ≤ r ∧ paneAt items r = true
           ∧ ∀ j, i ≤ j < r → paneAt items j = false)
          ∨ (r = from ∧ ∀ j, i ≤ j → paneAt items j = false)).
Proof.
  revert i. induction fuel as [|fuel IH]; intros i Hi Hfuel; [lia|].
  simpl. destruct (Z.ltb_spec i (Z.of_nat (length items))) as [Hlt|Hge].
  - destruct (at__Some items i) as [it Hit]; [lia|]. rewrite Hit. simpl.
    destruct (isPane it) eqn:Hp.
    + exists i. split; [done|]. left. split; [lia|]. split; [|intros j Hj; lia].
      unfold paneAt. by rewrite Hit.
    + destruct (IH (i + 1)) as (r & Hr & Hcase); [lia | lia |].
      exists r. split; [done|].
      assert (Hi0 : paneAt items i = false) by (unfold paneAt; by rewrite Hit).
      destruct Hcase as [(Hle & Hpr & Hmin) | (-> & Hnone)].
      * left. split; [lia|]. split; [done|]. intros j Hj.
        destruct (decide (j = i)) as [->|]; [done | apply Hmin; lia].
      * right. split; [done|]. intros j Hj.
        destruct (decide (j = i)) as [->|]; [done | apply Hnone; lia].
  - exists from. split; [done|]. right. split; [done|]. intros j Hj.
    apply paneAt_outside. lia.
Qed.

(** The backward scan finds the last pane row at or before [i]. *)
Lemma prevLoop_spec items from fuel i :
  i < Z.of_nat (length items) → (Z.to_nat (i + 1) < fuel)%nat →
  ∃ r, prevLoop items from fuel i = Some r
       ∧ ((r ≤ i ∧ paneAt items r = true
           ∧ ∀ j, r < j ≤ i → paneAt items j = false)
          ∨ (r = from ∧ ∀ j, j ≤ i → paneAt items j = false)).
Proof.
  revert i. induction fuel as [|fuel IH]; intros i Hi Hfuel; [lia|].
  simpl. destruct (Z.leb_spec 0 i) as [Hge|Hlt].
  - destruct (at__Some items i) as [it Hit]; [lia|]. rewrite Hit. simpl.
    destruct (isPane it) eqn:Hp.
    + exists i. split; [done|]. left. split; [lia|]. split; [|intros j Hj; lia].
      unfold paneAt. by rewrite Hit.
    + destruct (IH (i - 1)) as (r & Hr & Hcase); [lia | lia |].
      exists r. split; [done|].
      assert (Hi0 : paneAt items i = false) by (unfold paneAt; by rewrite Hit).
      destruct Hcase as [(Hle & Hpr & Hmin) | (-> & Hnone)].
      * left. split; [lia|]. split; [done|]. intros j Hj.
        destruct (decide (j = i)) as [->|]; [done | apply Hmin; lia].
      * right. split; [done|]. intros j Hj.
        destruct (decide (j = i)) as [->|]; [done | apply Hnone; lia].
  - exists from. split; [done|]. right. split; [done|]. intros j Hj.
    apply paneAt_outside. lia.
Qed.

Lemma NextPane_spec items from :
  sliceLen items → -1 ≤ from < 2 ^ 63 - 1 →
  ∃ r, NextPane items from = Some r
       ∧ ((from < r ∧ paneAt items r = true
           ∧ ∀ j, from < j < r → paneAt items j = false)
          ∨ (r = from ∧ ∀ j, from < j → paneAt items j = false)).
Proof.
  intros Hlen Hfrom. unfold NextPane. rewrite wrap64_id by lia.
  destruct (nextLoop_spec items from (S (length items)) (from + 1))
    as (r & Hr & Hcase); [lia | lia |].
  exists r. split; [done|].
  destruct Hcase as [(Hle & Hpr & Hmin) | (-> & Hnone)].
  - left. split; [lia|]. split; [done|]. intros j Hj. apply Hmin. lia.
  - right. split; [done|]. intros j Hj. apply Hnone. lia.
Qed.

Lemma PrevPane_spec items from :
  sliceLen items → - 2 ^ 63 < from ≤ Z.of_nat (length items) →
  ∃ r, PrevPane items from = Some r
       ∧ ((r < from ∧ paneAt items r = true
           ∧ ∀ j, r < j < from → paneAt items j = false)
          ∨ (r = from ∧ ∀ j, j < from → paneAt items j = false)).
Proof.
  intros Hlen Hfrom. unfold sliceLen in Hlen. unfold PrevPane.
  rewrite wrap64_id by lia.
  destruct (prevLoop_spec items from (S (length items)) (from - 1))
    as (r & Hr & Hcase); [lia | lia |].
  exists r. split; [done|].
  destruct Hcase as [(Hle & Hpr & Hmin) | (-> & Hnone)].
  - left. split; [lia|]. split; [done|]. intros j Hj. apply Hmin. lia.
  - right. split; [done|]. intros j Hj. apply Hnone. lia.
Qed.

Lemma NearestPane_clamped items from :
  items ≠ [] →
  NearestPane items from
  = let c := clampIndex (Z.of_nat (length items)) from in
    it ← at_ items c;
    if isPane it then Some c
    else
      prev ← PrevPane items c;
      if negb (prev =? c) then Some prev
      else
        next ← NextPane items c;
        if negb (next =? c) then Some next else Some 0.
Proof.
  intros Hne. unfold NearestPane, clampIndex.
  assert (Hlen : 0 < Z.of_nat (length items)) by (destruct items; simpl; [done | lia]).
  destruct (Z.eqb_spec (Z.of_nat (length items)) 0) as [E|_]; [lia|].
  set (n := Z.of_nat (length items)) in *.
  assert (Hc : (if (if n <=? from then n - 1 else from) <? 0 then 0
                else (if n <=? from then n - 1 else from))
               = Z.max 0 (Z.min from (n - 1))).
  { destruct (Z.leb_spec n from);
      [destruct (Z.ltb_spec (n - 1) 0) | destruct (Z.ltb_spec from 0)]; lia. }
  cbv zeta. rewrite Hc. reflexivity.
Qed.

Lemma NearestPane_cases (items : list TreeItem) (from : Z) :
  sliceLen items → items ≠ [] →
  let c := clampIndex (Z.of_nat (length items)) from in
  ∃ r, NearestPane items from = Some r
       ∧ ((paneAt items c = true ∧ r = c)
          ∨ (paneAt items c = false ∧ r < c ∧ paneAt items r = true
             ∧ ∀ k, r < k < c → paneAt items k = false)
          ∨ (paneAt items c = false ∧ (∀ j, j < c → paneAt items j = false)
             ∧ c < r ∧ paneAt items r = true
             ∧ ∀ k, c < k < r → paneAt items k = false)
          ∨ ((∀ j, paneAt items j = false) ∧ r = 0)).
Proof.
  intros Hlen Hne. rewrite NearestPane_clamped by done. cbv zeta.
  set (n := Z.of_nat (length items)).
  assert (Hn : 0 < n < 2 ^ 63).
  { unfold sliceLen in Hlen. subst n. destruct items; simpl in *; [done | lia]. }
  set (c := clampIndex n from).
  assert (Hc : 0 ≤ c < n) by (subst c; unfold clampIndex; lia).
  destruct (at__Some items c) as [it Hit]; [by fold n|]. rewrite Hit. simpl.
  assert (Hpc : paneAt items c = isPane it) by (unfold paneAt; by rewrite Hit).
  destruct (isPane it) eqn:Hp.
  { exists c. split; [done|]. by left. }
  destruct (PrevPane_spec items c Hlen) as (prev & Hprev & Hcase); [fold n; lia|].
  rewrite Hprev. simpl.
  destruct Hcase as [(Hlt & Hpp & Hmin) | (-> & Hnoprev)].
  - destruct (Z.eqb_spec prev c) as [E|_]; [lia|]. simpl.
    exists prev. split; [done|]. right. left. done.
  - rewrite Z.eqb_refl. simpl.
    destruct (NextPane_spec items c Hlen) as (next & Hnext & Hcase); [lia|].
    rewrite Hnext. simpl.
    destruct Hcase as [(Hlt & Hpn & Hmin) | (-> & Hnonext)].
    + destruct (Z.eqb_spec next c) as [E|_]; [lia|]. simpl.
      exists next. split; [done|]. right. right. left. done.
    + rewrite Z.eqb_refl. simpl. exists 0. split; [done|]. right. right. right.
      split; [|done]. intros j.
      destruct (Z.lt_trichotomy j c) as [Hl | [-> | Hg]]; auto.
Qed.

Lemma NearestPane_total items from :
  sliceLen items → is_Some (NearestPane items from).
Proof.
  intros Hlen. destruct items as [|it rest] eqn:E; [by eexists|].
  rewrite <- E in *. destruct (NearestPane_cases items from Hlen) as (r & Hr & _);
    [by rewrite E | by eexists].
Qed.

(** C6.  [NearestPane] never fails; on an empty list it returns 0;
    otherwise, with [c] the index clamped into the bounds of the list: [c]
    itself when it addresses a pane row, else the nearest pane row before
    [c] when there is one, else the nearest pane row after [c] (and 0 when
    the list has no pane row at all).  On an index that addresses a pane
    row it is the identity. *)
Theorem NearestPane_clamps_prefers_previous (items : list TreeItem) (from : Z) :
  sliceLen items →
  ∃ r, NearestPane items from = Some r
       ∧ (items = [] → r = 0)
       ∧ (paneAt items from = true → r = from)
       ∧ (items ≠ [] →
          let c := clampIndex (Z.of_nat (length items)) from in
          (paneAt items c = true → r = c)
          ∧ (paneAt items c = false → (∃ j, j < c ∧ paneAt items j = true) →
             r < c ∧ paneAt items r = true
             ∧ ∀ k, r < k < c → paneAt items k = false)
          ∧ (paneAt items c = false → (∀ j, j < c → paneAt items j = false) →
             (∃ j, c < j ∧ paneAt items j = true) →
             c < r ∧ paneAt items r = true
             ∧ ∀ k, c < k < r → paneAt items k = false)
          ∧ ((∀ j, paneAt items j = false) → r = 0)).
Proof.
  intros Hlen. destruct items as [|it0 rest] eqn:Eitems.
  { exists 0. split; [done|]. split; [done|]. split; [|done].
    intros H. by rewrite paneAt_outside in H by (simpl; lia). }
  rewrite <- Eitems in *. assert (Hne : items ≠ []) by (by rewrite Eitems).
  clear Eitems it0 rest.
  destruct (NearestPane_cases items from Hlen Hne) as (r & Hr & Hcase).
  set (c := clampIndex (Z.of_nat (length items)) from) in *.
  assert (Hid : paneAt items from = true → c = from).
  { intros H%paneAt_range. subst c. unfold clampIndex. lia. }
  exists r. split; [done|]. split; [done|].
  destruct Hcase as [(Hpc & ->) | [(Hpc & Hlt & Hpr & Hmin)
                    | [(Hpc & Hnoprev & Hlt & Hpr & Hmin) | (Hnone & ->)]]].
  - split; [done|]. intros _. split; [done|].
    split; [intros H; congruence|]. split; [intros H; congruence|].
    intros Hnone. rewrite Hnone in Hpc. done.
  - split; [intros H; rewrite <- (Hid H) in H; congruence|].
    intros _. split; [intros H; congruence|]. split; [done|]. split.
    + intros _ Hall. rewrite Hall in Hpr by lia. done.
    + intros Hnone. rewrite Hnone in Hpr. done.
  - split; [intros H; rewrite <- (Hid H) in H; congruence|].
    intros _. split; [intros H; congruence|]. split.
    + intros _ (j & Hj & Hpj). rewrite Hnoprev in Hpj by done. done.
    + split; [done|]. intros Hnone. rewrite Hnone in Hpr. done.
  - split; [intros H; rewrite Hnone in H; done|].
    intros _. split; [intros H; rewrite Hnone in H; done|]. split.
    + intros _ (j & Hj & Hpj). rewrite Hnone in Hpj. done.
    + split; [|done]. intros _ _ (j & Hj & Hpj). rewrite Hnone in Hpj. done.
Qed.

Lemma NearestPane_clamps_prefers_previous_witness :
  sliceLen [headerRow 0; paneRow 0 0; headerRow 1; paneRow 1 0]
  ∧ ∃ r, NearestPane [headerRow 0; paneRow 0 0; headerRow 1; paneRow 1 0] 2 = Some r
         ∧ r = 1.
Proof.
  assert (Hlen : sliceLen [headerRow 0; paneRow 0 0; headerRow 1; paneRow 1 0])
    by (unfold sliceLen; simpl; lia).
  split; [exact Hlen|].
  destruct (NearestPane_clamps_prefers_previous
              [headerRow 0; paneRow 0 0; headerRow 1; paneRow 1 0] 2 Hlen)
    as (r & Hr & _).
  exists r. split; [exact Hr|]. vm_compute in Hr. congruence.
Defined.

(** C7 (as the code has it).  For an index [from >= -1] (below [MaxInt])
    [NextPane] returns the smallest index greater than [from] that holds a
    pane row, and [from] when there is none; for an index
    [from <= len(items)] (above [MinInt]) [PrevPane] returns the greatest
    index smaller than [from] that holds a pane row, and [from] when there
    is none.  At the last pane row [NextPane], and at the first pane row
    [PrevPane], return their argument. *)
Theorem NextPane_PrevPane_scan (items : list TreeItem) (from : Z) :
  sliceLen items →
  (-1 ≤ from < 2 ^ 63 - 1 →
   ∃ r, NextPane items from = Some r
        ∧ ((from < r ∧ paneAt items r = true
            ∧ ∀ j, from < j < r → paneAt items j = false)
           ∨ (r = from ∧ ∀ j, from < j → paneAt items j = false)))
  ∧ (- 2 ^ 63 < from ≤ Z.of_nat (length items) →
     ∃ r, PrevPane items from = Some r
          ∧ ((r < from ∧ paneAt items r = true
              ∧ ∀ j, r < j < from → paneAt items j = false)
             ∨ (r = from ∧ ∀ j, j < from → paneAt items j = false)))
  ∧ (paneAt items from = true → (∀ j, from < j → paneAt items j = false) →
     NextPane items from = Some from)
  ∧ (paneAt items from = true → (∀ j, j < from → paneAt items j = false) →
     PrevPane items from = Some from).
Proof.
  intros Hlen. split; [by apply NextPane_spec|]. split; [by apply PrevPane_spec|].
  pose proof Hlen as Hlen'. unfold sliceLen in Hlen'. split.
  - intros Hp Hlast. pose proof (paneAt_range _ _ Hp) as Hr.
    destruct (NextPane_spec items from Hlen) as (r & Hr' & Hcase); [lia|].
    rewrite Hr'. destruct Hcase as [(Hlt & Hpr & _) | (-> & _)]; [|done].
    rewrite Hlast in Hpr by done. done.
  - intros Hp Hfirst. pose proof (paneAt_range _ _ Hp) as Hr.
    destruct (PrevPane_spec items from Hlen) as (r & Hr' & Hcase); [lia|].
    rewrite Hr'. destruct Hcase as [(Hlt & Hpr & _) | (-> & _)]; [|done].
    rewrite Hfirst in Hpr by done. done.
Qed.

Lemma NextPane_PrevPane_scan_witness :
  sliceLen [headerRow 0; paneRow 0 0; paneRow 0 1]
  ∧ NextPane [headerRow 0; paneRow 0 0; paneRow 0 1] 2 = Some 2
  ∧ PrevPane [headerRow 0; paneRow 0 0; paneRow 0 1] 1 = Some 1.
Proof.
  assert (Hlen : sliceLen [headerRow 0; paneRow 0 0; paneRow 0 1])
    by (unfold sliceLen; simpl; lia).
  split; [exact Hlen|]. split.
  - destruct (NextPane_PrevPane_scan [headerRow 0; paneRow 0 0; paneRow 0 1] 2 Hlen)
      as (_ & _ & Hnext & _).
    apply Hnext; [reflexivity|]. intros j Hj. apply paneAt_outside. simpl. lia.
  - destruct (NextPane_PrevPane_scan [headerRow 0; paneRow 0 0; paneRow 0 1] 1 Hlen)
      as (_ & _ & _ & Hprev).
    apply Hprev; [reflexivity|]. intros j Hj.
    destruct (Z.ltb_spec j 0); [apply paneAt_outside; lia|].
    assert (j = 0) as -> by lia. reflexivity.
Defined.

(** C7 as stated fails for indices outside the list: [NextPane] at -2
    evaluates [items[-1]], [PrevPane] at 2 on a list of one row evaluates
    [items[1]]; both index expressions panic. *)
Lemma NextPane_PrevPane_every_index_counterexample :
  NextPane [paneRow 0 0] (-2) = None
  ∧ PrevPane [paneRow 0 0] 2 = None
  ∧ ¬ (∀ items from, sliceLen items →
         is_Some (NextPane items from) ∧ is_Some (PrevPane items from)).
Proof.
  split; [reflexivity|]. split; [reflexivity|].
  intros Hall.
  destruct (Hall [paneRow 0 0] (-2)) as [[r Hr] _];
    [unfold sliceLen; simpl; lia | discriminate Hr].
Qed.

(** ** Flattening *)

Lemma flattenPanes_spec wi panes : ∀ pi items,
  flattenPanes wi panes pi items
  = items ++ imap (fun k _ => paneRow wi (pi + Z.of_nat k)) panes.
Proof.
  induction panes as [|p rest IH]; intros pi items; simpl.
  - by rewrite app_nil_r.
  - rewrite IH, <- app_assoc. simpl. f_equal. f_equal.
    + unfold paneRow. f_equal. lia.
    + apply imap_ext. intros k x _. simpl. unfold paneRow. f_equal. lia.
Qed.

Lemma flattenLoop_spec workspaces : ∀ wi items,
  flattenLoop workspaces (Z.of_nat wi) items
  = items ++ concat (imap (fun k ws => rowsOf (wi + k) ws) workspaces).
Proof.
  induction workspaces as [|ws rest IH]; intros wi items; simpl.
  - by rewrite app_nil_r.
  - replace (Z.of_nat wi + 1) with (Z.of_nat (S wi)) by lia.
    rewrite IH, flattenPanes_spec, <- !app_assoc. simpl. f_equal.
    rewrite Nat.add_0_r. unfold headerRow. do 3 f_equal.
    apply imap_ext. intros k x _. simpl. f_equal. lia.
Qed.

Lemma FlattenTree_rows workspaces :
  FlattenTree workspaces = concat (imap rowsOf workspaces).
Proof.
  unfold FlattenTree. change 0 with (Z.of_nat 0).
  rewrite flattenLoop_spec. simpl. f_equal.
Qed.

Lemma rowsOf_elem wi ws it :
  it ∈ rowsOf wi ws ↔
  it = headerRow (Z.of_nat wi)
  ∨ ∃ pi p, Panes ws !! pi = Some p ∧ it = paneRow (Z.of_nat wi) (Z.of_nat pi).
Proof.
  unfold rowsOf. rewrite elem_of_cons, elem_of_lookup_imap. split.
  - intros [-> | (pi & p & -> & Hp)]; [by left | right; eauto].
  - intros [-> | (pi & p & Hp & ->)]; [by left | right; eauto].
Qed.

Lemma FlattenTree_elem workspaces it :
  it ∈ FlattenTree workspaces ↔
  ∃ wi ws, workspaces !! wi = Some ws ∧ it ∈ rowsOf wi ws.
Proof.
  rewrite FlattenTree_rows, list_elem_of_In, in_concat. split.
  - intros (rows & Hrows & Hit). apply list_elem_of_In in Hrows, Hit.
    apply elem_of_lookup_imap in Hrows as (wi & ws & -> & Hws). eauto.
  - intros (wi & ws & Hws & Hit). exists (rowsOf wi ws).
    split; apply list_elem_of_In; [|done].
    apply elem_of_lookup_imap. eauto.
Qed.

Lemma at__of_nat {A} (xs : list A) (i : nat) : at_ xs (Z.of_nat i) = xs !! i.
Proof.
  unfold at_. destruct (Z.ltb_spec (Z.of_nat i) 0); [lia|]. by rewrite Nat2Z.id.
Qed.

Lemma FlattenTree_refs workspaces it :
  it ∈ FlattenTree workspaces →
  ∃ ws, at_ workspaces (WorkspaceIndex it) = Some ws
        ∧ 0 ≤ WorkspaceIndex it < Z.of_nat (length workspaces)
        ∧ (Kind it = KindPane →
           0 ≤ PaneIndex it < Z.of_nat (length (Panes ws))
           ∧ is_Some (paneOf workspaces it)).
Proof.
  intros (wi & ws & Hws & Hit)%FlattenTree_elem. exists ws.
  pose proof (lookup_lt_Some _ _ _ Hws) as Hwi.
  apply rowsOf_elem in Hit as [-> | (pi & p & Hp & ->)]; simpl.
  - rewrite at__of_nat. split; [done|]. split; [lia | done].
  - rewrite at__of_nat. split; [done|]. split; [lia|]. intros _.
    pose proof (lookup_lt_Some _ _ _ Hp) as Hpi. split; [lia|].
    unfold paneOf. simpl. rewrite at__of_nat, Hws. simpl.
    rewrite at__of_nat, Hp. by eexists.
Qed.

Lemma FlattenTree_validRefs workspaces : validRefs workspaces (FlattenTree workspaces).
Proof.
  intros it Hit Hp. destruct (FlattenTree_refs _ _ Hit) as (ws & _ & _ & H).
  apply H. unfold isPane in Hp. by apply bool_decide_eq_true in Hp.
Qed.

(** C10.  [FlattenTree] emits, workspace after workspace, one header row
    followed by one pane row per pane, in order; every row refers to an
    existing workspace and every pane row to an existing pane of it, so
    [workspaces[item.WorkspaceIndex].Panes[item.PaneIndex]] does not panic,
    and the enter key of a model whose items were flattened from its
    workspaces is handled without a panic. *)
Theorem FlattenTree_back_references_valid (wss : list Workspace) :
  FlattenTree wss = concat (imap rowsOf wss)
  ∧ (∀ it, it ∈ FlattenTree wss →
       ∃ ws, at_ wss (WorkspaceIndex it) = Some ws
             ∧ 0 ≤ WorkspaceIndex it < Z.of_nat (length wss)
             ∧ (Kind it = KindPane →
                0 ≤ PaneIndex it < Z.of_nat (length (Panes ws))
                ∧ is_Some (paneOf wss it)))
  ∧ (∀ m : Model, workspaces m = wss →
       items m = FlattenTree wss → is_Some (updateKey m "enter")).
Proof.
  split; [apply FlattenTree_rows|]. split; [apply FlattenTree_refs|].
  intros m <- Hitems. unfold updateKey. simpl.
  destruct ((0 <=? cursor m) && (cursor m <? Z.of_nat (length (items m)))) eqn:Hb;
    [|by eexists].
  apply andb_true_iff in Hb as [H0%Z.leb_le H1%Z.ltb_lt].
  destruct (at__Some (items m) (cursor m)) as [it Hit]; [lia|].
  rewrite Hit. simpl. destruct (isPane it) eqn:Hp; [|by eexists].
  assert (Hin : it ∈ FlattenTree (workspaces m)).
  { rewrite <- Hitems. unfold at_ in Hit.
    destruct (cursor m <? 0); [done|]. by apply list_elem_of_lookup_2 in Hit. }
  destruct (FlattenTree_validRefs _ it Hin Hp) as [p Hpane].
  rewrite Hpane. by eexists.
Qed.

Lemma FlattenTree_back_references_valid_witness :
  paneRow 0 0 ∈ FlattenTree [exampleWorkspace [examplePane StatusIdle]]
  ∧ ∃ ws, at_ [exampleWorkspace [examplePane StatusIdle]] 0 = Some ws
          ∧ is_Some (paneOf [exampleWorkspace [examplePane StatusIdle]] (paneRow 0 0)).
Proof.
  assert (Hin : paneRow 0 0 ∈ FlattenTree [exampleWorkspace [examplePane StatusIdle]]).
  { apply elem_of_cons. right. apply elem_of_cons. by left. }
  split; [exact Hin|].
  destruct (FlattenTree_back_references_valid [exampleWorkspace [examplePane StatusIdle]])
    as (_ & Hrefs & _).
  destruct (Hrefs (paneRow 0 0) Hin) as (ws & Hws & _ & Hp).
  exists ws. split; [exact Hws|]. apply Hp. reflexivity.
Defined.

(** ** Header rows and the cursor *)

Lemma paneAt_not_header items i : paneAt items i = true → headerAt items i = false.
Proof.
  unfold paneAt, headerAt. destruct (at_ items i); [|done]. by intros ->.
Qed.

Lemma attentionAt_paneAt workspaces items i :
  attentionAt workspaces items i = true → paneAt items i = true.
Proof.
  unfold attentionAt, paneAt. destruct (at_ items i); [|done].
  by intros [H _]%andb_true_iff.
Qed.

Lemma nextLoop_result items from fuel i r :
  nextLoop items from fuel i = Some r → paneAt items r = true ∨ r = from.
Proof.
  revert i. induction fuel as [|fuel IH]; intros i; simpl.
  - intros [= <-]. by right.
  - destruct (i <? Z.of_nat (length items)); [|intros [= <-]; by right].
    destruct (at_ items i) as [it|] eqn:Hit; [|done]. simpl.
    destruct (isPane it) eqn:Hp; [|apply IH].
    intros [= <-]. left. unfold paneAt. by rewrite Hit.
Qed.

Lemma prevLoop_result items from fuel i r :
  prevLoop items from fuel i = Some r → paneAt items r = true ∨ r = from.
Proof.
  revert i. induction fuel as [|fuel IH]; intros i; simpl.
  - intros [= <-]. by right.
  - destruct (0 <=? i); [|intros [= <-]; by right].
    destruct (at_ items i) as [it|] eqn:Hit; [|done]. simpl.
    destruct (isPane it) eqn:Hp; [|apply IH].
    intros [= <-]. left. unfold paneAt. by rewrite Hit.
Qed.

Lemma at__middle {A} (pre : list A) (x : A) (rest : list A) :
  at_ (pre ++ x :: rest) (Z.of_nat (length pre)) = Some x.
Proof. rewrite at__of_nat. by apply list_lookup_middle. Qed.

Lemma firstPaneFrom_spec items : ∀ pre,
  let all := pre ++ items in
  let i := Z.of_nat (length pre) in
  let r := firstPaneFrom i items in
  (i ≤ r ∧ paneAt all r = true ∧ ∀ j, i ≤ j < r → paneAt all j = false)
  ∨ (r = 0 ∧ ∀ j, i ≤ j → paneAt all j = false).
Proof.
  induction items as [|it rest IH]; intros pre; simpl.
  - right. split; [done|]. intros j Hj. apply paneAt_outside.
    rewrite app_nil_r. lia.
  - assert (Hi : paneAt (pre ++ it :: rest) (Z.of_nat (length pre)) = isPane it).
    { unfold paneAt. by rewrite at__middle. }
    destruct (isPane it) eqn:Hp.
    + left. split; [lia|]. split; [done|]. intros j Hj. lia.
    + specialize (IH (pre ++ [it])). simpl in IH.
      rewrite <- app_assoc, length_app in IH. simpl in IH.
      replace (Z.of_nat (length pre + 1)) with (Z.of_nat (length pre) + 1) in IH by lia.
      destruct IH as [(Hle & Hpr & Hmin) | (Hr & Hnone)].
      * left. split; [lia|]. split; [done|]. intros j Hj.
        destruct (decide (j = Z.of_nat (length pre))) as [->|]; [done|].
        apply Hmin. lia.
      * right. split; [done|]. intros j Hj.
        destruct (decide (j = Z.of_nat (length pre))) as [->|]; [done|].
        apply Hnone. lia.
Qed.

(** [FirstPane] returns the first pane row, and 0 when there is none. *)
Lemma FirstPane_spec items :
  (paneAt items (FirstPane items) = true
   ∧ ∀ j, j < FirstPane items → paneAt items j = false)
  ∨ (FirstPane items = 0 ∧ ∀ j, paneAt items j = false).
Proof.
  destruct (firstPaneFrom_spec items []) as [(Hle & Hp & Hmin) | (Hr & Hnone)];
    simpl in *; change (Z.of_nat 0) with 0 in *; fold (FirstPane items) in *.
  - left. split; [done|]. intros j Hj.
    destruct (Z.ltb_spec j 0); [apply paneAt_outside; lia | apply Hmin; lia].
  - right. split; [done|]. intros j.
    destruct (Z.ltb_spec j 0); [apply paneAt_outside; lia | apply Hnone; lia].
Qed.

Lemma firstAttentionFrom_spec workspaces all items : ∀ pre,
  all = pre ++ items → validRefs workspaces all →
  let i := Z.of_nat (length pre) in
  ∃ r, firstAttentionFrom workspaces all i items = Some r
       ∧ ((i ≤ r ∧ attentionAt workspaces all r = true
           ∧ ∀ j, i ≤ j < r → attentionAt workspaces all j = false)
          ∨ (r = FirstPane all
             ∧ ∀ j, i ≤ j → attentionAt workspaces all j = false)).
Proof.
  induction items as [|it rest IH]; intros pre Hall Hrefs; simpl.
  - exists (FirstPane all). split; [done|]. right. split; [done|].
    intros j Hj. unfold attentionAt. rewrite at__None; [done|].
    rewrite Hall, app_nil_r. lia.
  - assert (Hat : at_ all (Z.of_nat (length pre)) = Some it)
      by (rewrite Hall; apply at__middle).
    assert (Hnext : ∃ r, firstAttentionFrom workspaces all
                           (Z.of_nat (length pre) + 1) rest = Some r
              ∧ ((Z.of_nat (length pre) + 1 ≤ r ∧ attentionAt workspaces all r = true
                  ∧ ∀ j, Z.of_nat (length pre) + 1 ≤ j < r →
                         attentionAt workspaces all j = false)
                 ∨ (r = FirstPane all
                    ∧ ∀ j, Z.of_nat (length pre) + 1 ≤ j →
                           attentionAt workspaces all j = false))).
    { specialize (IH (pre ++ [it])). rewrite <- app_assoc, length_app in IH.
      simpl in IH.
      replace (Z.of_nat (length pre + 1)) with (Z.of_nat (length pre) + 1) in IH by lia.
      by apply IH. }
    assert (Hskip : attentionAt workspaces all (Z.of_nat (length pre)) = false →
              ∃ r, firstAttentionFrom workspaces all
                     (Z.of_nat (length pre) + 1) rest = Some r
                ∧ ((Z.of_nat (length pre) ≤ r ∧ attentionAt workspaces all r = true
                    ∧ ∀ j, Z.of_nat (length pre) ≤ j < r →
                           attentionAt workspaces all j = false)
                   ∨ (r = FirstPane all
                      ∧ ∀ j, Z.of_nat (length pre) ≤ j →
                             attentionAt workspaces all j = false))).
    { intros Hi. destruct Hnext as (r & Hr & Hcase). exists r. split; [done|].
      destruct Hcase as [(Hle & Ha & Hmin) | (-> & Hnone)].
      - left. split; [lia|]. split; [done|]. intros j Hj.
        destruct (decide (j = Z.of_nat (length pre))) as [->|]; [done|].
        apply Hmin. lia.
      - right. split; [done|]. intros j Hj.
        destruct (decide (j = Z.of_nat (length pre))) as [->|]; [done|].
        apply Hnone. lia. }
    destruct (isPane it) eqn:Hp.
    + destruct (Hrefs it) as [p Hpane]; [|done|].
      { rewrite Hall. apply elem_of_app. right. apply elem_of_cons. by left. }
      rewrite Hpane. simpl.
      assert (Hi : attentionAt workspaces all (Z.of_nat (length pre))
                   = bool_decide (Status p = StatusNeedsAttention)).
      { unfold attentionAt. by rewrite Hat, Hp, Hpane. }
      destruct (bool_decide (Status p = StatusNeedsAttention)); [|by apply Hskip].
      exists (Z.of_nat (length pre)). split; [done|]. left.
      split; [lia|]. split; [done|]. intros j Hj. lia.
    + apply Hskip. unfold attentionAt. by rewrite Hat, Hp.
Qed.

(** [FirstAttentionPane] returns the first pane row whose pane needs
    attention, and what [FirstPane] returns when there is none. *)
Lemma FirstAttentionPane_spec items workspaces :
  validRefs workspaces items →
  ∃ r, FirstAttentionPane items workspaces = Some r
       ∧ ((attentionAt workspaces items r = true
           ∧ ∀ j, j < r → attentionAt workspaces items j = false)
          ∨ (r = FirstPane items ∧ ∀ j, attentionAt workspaces items j = false)).
Proof.
  intros Hrefs.
  destruct (firstAttentionFrom_spec workspaces items items [] eq_refl Hrefs)
    as (r & Hr & Hcase).
  exists r. split; [done|]. simpl in Hcase.
  assert (Hneg : ∀ j, j < 0 → attentionAt workspaces items j = false).
  { intros j Hj. unfold attentionAt. by rewrite at__None by lia. }
  destruct Hcase as [(Hle & Ha & Hmin) | (-> & Hnone)].
  - left. split; [done|]. intros j Hj.
    destruct (Z.ltb_spec j 0); [by apply Hneg | apply Hmin; lia].
  - right. split; [done|]. intros j.
    destruct (Z.ltb_spec j 0); [by apply Hneg | apply Hnone; lia].
Qed.

Lemma insertByPath_elem w ws w' :
  w' ∈ insertByPath w ws ↔ w' = w ∨ w' ∈ ws.
Proof.
  induction ws as [|x rest IH]; simpl.
  - rewrite list_elem_of_singleton. split; [auto | intros [H|H]; [done|]].
    by apply elem_of_nil in H.
  - destruct (String.ltb (WsPath x) (WsPath w)).
    + rewrite !elem_of_cons, IH. tauto.
    + rewrite !elem_of_cons. tauto.
Qed.

Lemma sortByPath_elem l w' : w' ∈ foldr insertByPath [] l ↔ w' ∈ l.
Proof.
  induction l as [|x rest IH]; simpl; [done|].
  rewrite insertByPath_elem, elem_of_cons, IH. tauto.
Qed.

Lemma groups_nonempty panes : ∀ groups : gmap string (list Pane),
  (∀ k v, groups !! k = Some v → v ≠ []) →
  ∀ k v, fold_left groupStep panes groups !! k = Some v → v ≠ [].
Proof.
  induction panes as [|p rest IH]; intros groups Hg; simpl; [done|].
  apply IH. intros k v. unfold groupStep.
  destruct (decide (k = Path p)) as [->|Hk].
  - rewrite lookup_insert_eq. intros [= <-].
    destruct (default [] (groups !! Path p)); done.
  - rewrite lookup_insert_ne by done. apply Hg.
Qed.

(** Every workspace [GroupByWorkspace] builds has a pane. *)
Lemma GroupByWorkspace_nonempty host panes ws :
  ws ∈ GroupByWorkspace host panes → Panes ws ≠ [].
Proof.
  unfold GroupByWorkspace. rewrite sortByPath_elem, list_elem_of_fmap.
  intros ([k v] & -> & Hkv%elem_of_map_to_list). simpl.
  eapply (groups_nonempty panes ∅); [|exact Hkv].
  intros k' v'. by rewrite lookup_empty.
Qed.

(** A flattened list of workspaces that all have a pane is empty or has a
    pane row. *)
Lemma FlattenTree_has_pane wss :
  (∀ ws, ws ∈ wss → Panes ws ≠ []) →
  FlattenTree wss = [] ∨ ∃ j, paneAt (FlattenTree wss) j = true.
Proof.
  intros Hne. destruct wss as [|ws rest]; [by left|]. right. exists 1.
  rewrite FlattenTree_rows. rewrite imap_cons. simpl.
  destruct (Panes ws) as [|p ps] eqn:E.
  - exfalso. apply (Hne ws); [apply elem_of_cons; by left | done].
  - reflexivity.
Qed.

Lemma previewCmd_total m :
  validRefs (workspaces m) (items m) → is_Some (previewCmd m).
Proof.
  intros Hrefs. unfold previewCmd, currentTarget.
  destruct ((cursor m <? 0) || (Z.of_nat (length (items m)) <=? cursor m)) eqn:Hb;
    [by eexists|].
  apply orb_false_iff in Hb as [H0%Z.ltb_ge H1%Z.leb_gt].
  destruct (at__Some (items m) (cursor m)) as [it Hit]; [lia|].
  rewrite Hit. simpl. destruct (isPane it) eqn:Hp; simpl; [|by eexists].
  destruct (Hrefs it) as [p Hpane]; [|done|].
  { unfold at_ in Hit. destruct (cursor m <? 0); [done|].
    by apply list_elem_of_lookup_2 in Hit. }
  rewrite Hpane. simpl. destruct (String.eqb _ _); by eexists.
Qed.

Lemma NearestPane_no_header items from :
  sliceLen items → (items = [] ∨ ∃ j, paneAt items j = true) →
  ∃ r, NearestPane items from = Some r ∧ headerAt items r = false.
Proof.
  intros Hlen [-> | (j & Hj)]; [by exists 0|].
  assert (Hne : items ≠ []).
  { intros ->. by rewrite paneAt_outside in Hj by (simpl; lia). }
  destruct (NearestPane_cases items from Hlen Hne) as (r & Hr & Hcase).
  exists r. split; [done|].
  destruct Hcase as [(Hpc & ->) | [(_ & _ & Hpr & _)
                    | [(_ & _ & _ & Hpr & _) | (Hnone & _)]]];
    try by apply paneAt_not_header.
  by rewrite Hnone in Hj.
Qed.

(** C8 (as the code has it).  [NextPane] and [PrevPane] return their
    argument when they find no pane row, so they stay off the header rows
    only when their argument does not address one.  On an item list that
    is empty or has a pane row, as the flattening of the workspaces
    [GroupByWorkspace] builds is, [FirstPane], [NearestPane] and
    [FirstAttentionPane] return an index that addresses no header row. *)
Theorem lookups_skip_header_rows
  (items : list TreeItem) (wss : list Workspace) (from : Z) :
  sliceLen items →
  (headerAt items from = false →
   (∀ r, NextPane items from = Some r → headerAt items r = false)
   ∧ (∀ r, PrevPane items from = Some r → headerAt items r = false))
  ∧ ((items = [] ∨ ∃ j, paneAt items j = true) →
     headerAt items (FirstPane items) = false
     ∧ (∃ r, NearestPane items from = Some r ∧ headerAt items r = false)
     ∧ (validRefs wss items →
        ∃ r, FirstAttentionPane items wss = Some r ∧ headerAt items r = false))
  ∧ (∀ host panes,
       let its := FlattenTree (GroupByWorkspace host panes) in
       (its = [] ∨ ∃ j, paneAt its j = true)
       ∧ validRefs (GroupByWorkspace host panes) its).
Proof.
  intros Hlen. split; [|split].
  - intros Hfrom. split; intros r Hr.
    + apply nextLoop_result in Hr as [H | ->]; [by apply paneAt_not_header | done].
    + apply prevLoop_result in Hr as [H | ->]; [by apply paneAt_not_header | done].
  - intros Hpane.
    assert (Hfirst : headerAt items (FirstPane items) = false).
    { destruct (FirstPane_spec items) as [[H _] | [H0 Hnone]];
        [by apply paneAt_not_header|].
      destruct Hpane as [-> | (j & Hj)]; [done|]. by rewrite Hnone in Hj. }
    split; [done|]. split; [by apply NearestPane_no_header|].
    intros Hrefs.
    destruct (FirstAttentionPane_spec items wss Hrefs) as (r & Hr & Hcase).
    exists r. split; [done|].
    destruct Hcase as [[H _] | [-> _]]; [|done].
    by apply paneAt_not_header, attentionAt_paneAt with wss.
  - intros host panes its. split; [|apply FlattenTree_validRefs].
    apply FlattenTree_has_pane. intros ws. apply GroupByWorkspace_nonempty.
Qed.

Lemma lookups_skip_header_rows_witness :
  sliceLen [headerRow 0; paneRow 0 0]
  ∧ headerAt [headerRow 0; paneRow 0 0] 1 = false
  ∧ ∀ r, PrevPane [headerRow 0; paneRow 0 0] 1 = Some r →
         headerAt [headerRow 0; paneRow 0 0] r = false.
Proof.
  assert (Hlen : sliceLen [headerRow 0; paneRow 0 0])
    by (unfold sliceLen; simpl; lia).
  split; [exact Hlen|]. split; [reflexivity|].
  destruct (lookups_skip_header_rows [headerRow 0; paneRow 0 0] [] 1 Hlen)
    as (Hmove & _).
  destruct (Hmove eq_refl) as [_ Hprev]. exact Hprev.
Defined.

(** C8 as stated fails: on the flattened list of one workspace with one
    pane, [PrevPane] at index 0 finds no pane row before it and returns 0,
    which addresses the workspace header. *)
Lemma lookups_never_header_counterexample :
  let wss := [exampleWorkspace [examplePane StatusIdle]] in
  FlattenTree wss = [headerRow 0; paneRow 0 0]
  ∧ PrevPane (FlattenTree wss) 0 = Some 0
  ∧ headerAt (FlattenTree wss) 0 = true
  ∧ ¬ (∀ wss from r, PrevPane (FlattenTree wss) from = Some r →
         headerAt (FlattenTree wss) r = false).
Proof.
  intros wss. split; [reflexivity|]. split; [reflexivity|]. split; [reflexivity|].
  intros Hall. specialize (Hall wss 0 0 eq_refl). discriminate Hall.
Qed.

(** ** The update function *)

Lemma updatePanesLoaded_ok host m panes :
  let wss := GroupByWorkspace host panes in
  let its := FlattenTree wss in
  sliceLen its →
  ∃ c cmds,
    (if statusLoaded m then NearestPane its (cursor m)
     else FirstAttentionPane its wss) = Some c
    ∧ updatePanesLoaded host m panes None
      = Some (setPanes m wss its c, Batch (panesTickCmd :: cmds)).
Proof.
  intros wss its Hlen. unfold updatePanesLoaded. fold wss. fold its.
  assert (Hc : ∃ c, (if negb (statusLoaded m) then FirstAttentionPane its wss
                     else NearestPane its (cursor m)) = Some c).
  { destruct (statusLoaded m); simpl.
    - destruct (NearestPane_total its (cursor m) Hlen) as [r Hr]. eauto.
    - destruct (FirstAttentionPane_spec its wss (FlattenTree_validRefs wss))
        as (r & Hr & _). eauto. }
  destruct Hc as [c Hc]. rewrite Hc. simpl.
  destruct (previewCmd_total (setPanes m wss its c)) as [cmd Hcmd];
    [apply FlattenTree_validRefs|].
  rewrite Hcmd. simpl.
  assert (Hcur : (if statusLoaded m then NearestPane its (cursor m)
                  else FirstAttentionPane its wss) = Some c)
    by (destruct (statusLoaded m); exact Hc).
  exists c. destruct cmd; eexists; (split; [exact Hcur | reflexivity]).
Qed.

(** C9.  Handling a panes-loaded message never panics and always returns
    the panes tick: alone when the message carries an error, which is
    stored in the model with workspaces, items and cursor left as they
    were; first in the batch when the load succeeded.  After a successful
    load the workspaces and items are rebuilt from the message, and the
    cursor is what [FirstAttentionPane] returns on them if no status load
    had completed before (the first pane row needing attention, the first
    pane row when none does), and otherwise what [NearestPane] returns on
    the rebuilt items at the previous cursor. *)
Theorem Update_panesLoaded_rearms_tick
  (host : Host) (m : Model) (panes : list Pane) (e : string) :
  let wss := GroupByWorkspace host panes in
  let its := FlattenTree wss in
  sliceLen its →
  (∃ m', Update host m (panesLoadedMsg panes (Some e)) = Some (m', panesTickCmd, None)
         ∧ err m' = Some e ∧ loaded m' = true
         ∧ workspaces m' = workspaces m ∧ items m' = items m
         ∧ cursor m' = cursor m ∧ statusLoaded m' = statusLoaded m)
  ∧ (∃ m' cmds,
       Update host m (panesLoadedMsg panes None)
       = Some (m', Batch (panesTickCmd :: cmds), None)
       ∧ err m' = None ∧ loaded m' = true ∧ statusLoaded m' = true
       ∧ workspaces m' = wss ∧ items m' = its
       ∧ (statusLoaded m = false →
          FirstAttentionPane its wss = Some (cursor m')
          ∧ ((attentionAt wss its (cursor m') = true
              ∧ ∀ j, j < cursor m' → attentionAt wss its j = false)
             ∨ (cursor m' = FirstPane its ∧ ∀ j, attentionAt wss its j = false)))
       ∧ (statusLoaded m = true → NearestPane its (cursor m) = Some (cursor m'))).
Proof.
  intros wss its Hlen. split.
  - exists (setErr m (Some e) true). simpl. done.
  - destruct (updatePanesLoaded_ok host m panes Hlen) as (c & cmds & Hc & Hu).
    fold wss in Hc, Hu. fold its in Hc, Hu.
    exists (setPanes m wss its c), cmds. unfold Update.
    rewrite Hu. simpl. split; [done|]. do 5 (split; [done|]). split.
    + intros Hs. rewrite Hs in Hc. split; [done|].
      destruct (FirstAttentionPane_spec its wss (FlattenTree_validRefs wss))
        as (r & Hr & Hcase).
      rewrite Hr in Hc. injection Hc as <-. exact Hcase.
    + intros Hs. by rewrite Hs in Hc.
Qed.

Lemma Update_panesLoaded_rearms_tick_witness :
  let host := {| homeDir := "/home/u"; gitHead := fun _ => None |} in
  let m := {| workspaces := []; items := []; cursor := 0;
              preview := {| vpWidth := 40; vpHeight := 20; vpContent := "" |};
              previewFor := ""; lastPreviewContent := ""; width := 80;
              height := 24; err := None; loaded := true;
              statusLoaded := false; pendingD := false |} in
  let panes := [examplePane StatusIdle; examplePane StatusNeedsAttention] in
  sliceLen (FlattenTree (GroupByWorkspace host panes))
  ∧ ∃ m' cmds,
      Update host m (panesLoadedMsg panes None)
      = Some (m', Batch (panesTickCmd :: cmds), None)
      ∧ cursor m' = 2.
Proof.
  intros host m panes.
  assert (Hlen : sliceLen (FlattenTree (GroupByWorkspace host panes)))
    by (vm_compute; reflexivity).
  split; [exact Hlen|].
  destruct (Update_panesLoaded_rearms_tick host m panes "" Hlen)
    as (_ & m' & cmds & Hu & _ & _ & _ & _ & _ & Hfirst & _).
  exists m', cmds. split; [exact Hu|].
  destruct (Hfirst eq_refl) as [Hc _].
  assert (H2 : FirstAttentionPane (FlattenTree (GroupByWorkspace host panes))
                 (GroupByWorkspace host panes) = Some 2)
    by (vm_compute; reflexivity).
  rewrite H2 in Hc. injection Hc as Hc. symmetry. exact Hc.
Defined.

(* ================================================================== *)
(** * Further properties of the code *)
(* ================================================================== *)

(** ** Targets *)

Lemma hasByte_app c a b : hasByte c (a +:+ b) = hasByte c a || hasByte c b.
Proof.
  induction a as [|d a IH]; [done|]. rewrite append_String. simpl.
  by rewrite IH, orb_assoc.
Qed.

Lemma cutLast_None c s : cutLast c s = None ↔ hasByte c s = false.
Proof.
  induction s as [|d s IH]; simpl; [done|].
  destruct (cutLast c s) as [[a b]|].
  - split; [done|]. intros [_ H]%orb_false_iff. apply IH in H. done.
  - destruct IH as [IH _]. rewrite (IH eq_refl), orb_false_r.
    destruct (Ascii.eqb d c); done.
Qed.

Lemma cutLast_Some c s a b :
  cutLast c s = Some (a, b) → s = a +:+ String c b ∧ hasByte c b = false.
Proof.
  revert a. induction s as [|d s IH]; intros a; simpl; [done|].
  destruct (cutLast c s) as [[a' b']|] eqn:E.
  - intros [= <- <-]. destruct (IH a' eq_refl) as [-> Hb]. done.
  - destruct (Ascii.eqb_spec d c) as [->|]; [|done].
    intros [= <- <-]. split; [done|]. by apply cutLast_None.
Qed.

Lemma cutLast_app c a b :
  hasByte c b = false → cutLast c (a +:+ String c b) = Some (a, b).
Proof.
  intros Hb. induction a as [|d a IH].
  - change ("" +:+ String c b) with (String c b). simpl.
    apply cutLast_None in Hb. rewrite Hb. by rewrite Ascii.eqb_refl.
  - rewrite append_String. simpl. by rewrite IH.
Qed.

(** X1.  [parseTarget] splits at the last colon and then at the last dot of
    what follows it: a target written as session, colon, window, dot, pane
    is read back as these three parts whenever window and pane have no
    colon and pane has no dot (the session may have colons, the window
    dots); a string without a colon is a session alone; and the parts
    [parseTarget] returns always spell the string it was given. *)
Theorem parseTarget_round_trip (session window pane : string) :
  hasByte ":" window = false → hasByte ":" pane = false →
  hasByte "." pane = false →
  parseTarget (session +:+ ":" +:+ window +:+ "." +:+ pane)
  = (session, window, pane)
  ∧ (hasByte ":" session = false → parseTarget session = (session, "", ""))
  ∧ (∀ s se w p, parseTarget s = (se, w, p) →
       (s = se ∧ w = "" ∧ p = "" ∧ hasByte ":" s = false)
       ∨ (s = se +:+ ":" +:+ w ∧ p = "" ∧ hasByte "." w = false)
       ∨ s = se +:+ ":" +:+ w +:+ "." +:+ p).
Proof.
  intros Hw Hp Hd. split; [|split].
  - unfold parseTarget.
    change (session +:+ ":" +:+ window +:+ "." +:+ pane)
      with (session +:+ String ":" (window +:+ String "." pane)).
    rewrite cutLast_app.
    + by rewrite cutLast_app.
    + rewrite hasByte_app. simpl. by rewrite Hw, Hp.
  - intros Hs. unfold parseTarget. apply cutLast_None in Hs. by rewrite Hs.
  - intros s se w p. unfold parseTarget.
    destruct (cutLast ":" s) as [[a rest]|] eqn:E1.
    + apply cutLast_Some in E1 as [-> Hrest].
      destruct (cutLast "." rest) as [[a' b']|] eqn:E2.
      * apply cutLast_Some in E2 as [-> _]. intros [= <- <- <-]. right. by right.
      * apply cutLast_None in E2. intros [= <- <- <-]. right. by left.
    + apply cutLast_None in E1. intros [= <- <- <-]. by left.
Qed.

Lemma parseTarget_round_trip_witness :
  parseTarget "main:2.1" = ("main", "2", "1").
Proof.
  destruct (parseTarget_round_trip "main" "2" "1" eq_refl eq_refl eq_refl)
    as [H _].
  exact H.
Defined.

(** ** Text helpers and scrolling *)

Lemma length_append a b :
  String.length (a +:+ b) = (String.length a + String.length b)%nat.
Proof. induction a as [|c a IH]; [done|]. rewrite append_String. simpl. by rewrite IH. Qed.

Lemma substring_prefix n s :
  ∃ rest, s = String.substring 0 n s +:+ rest
          ∧ String.length (String.substring 0 n s) = Nat.min n (String.length s).
Proof.
  revert s. induction n as [|n IH]; intros s.
  - exists s. by destruct s.
  - destruct s as [|c s]; [by exists ""|].
    destruct (IH s) as (rest & Hrest & Hlen). exists rest. simpl.
    rewrite append_String, <- Hrest, Hlen. done.
Qed.

(** X2.  [truncate] never returns more than [maxLen] bytes (nothing when
    [maxLen] is not positive), returns the string unchanged when it fits,
    and otherwise, when there is room for the ellipsis, the first
    [maxLen - 3] bytes of it followed by three dots. *)
Theorem truncate_fits (s : string) (maxLen : Z) :
  Z.of_nat (len (truncate s maxLen)) ≤ Z.max 0 maxLen
  ∧ (Z.of_nat (len s) ≤ maxLen → truncate s maxLen = s)
  ∧ (3 < maxLen < Z.of_nat (len s) →
     ∃ head rest, s = head +:+ rest
                  ∧ Z.of_nat (len head) = maxLen - 3
                  ∧ truncate s maxLen = head +:+ "...").
Proof.
  unfold truncate, len. split; [|split].
  - destruct (Z.leb_spec maxLen 0); [simpl; lia|].
    destruct (Z.leb_spec (Z.of_nat (String.length s)) maxLen); [lia|].
    destruct (Z.leb_spec maxLen 3).
    + destruct (substring_prefix (Z.to_nat maxLen) s) as (rest & _ & Hlen). lia.
    + destruct (substring_prefix (Z.to_nat (maxLen - 3)) s) as (rest & _ & Hlen).
      rewrite length_append. simpl. lia.
  - intros Hfit. destruct (Z.leb_spec maxLen 0).
    + destruct s; [done | simpl in Hfit; lia].
    + destruct (Z.leb_spec (Z.of_nat (String.length s)) maxLen); [done | lia].
  - intros Hlong. destruct (Z.leb_spec maxLen 0); [lia|].
    destruct (Z.leb_spec (Z.of_nat (String.length s)) maxLen); [lia|].
    destruct (Z.leb_spec maxLen 3); [lia|].
    destruct (substring_prefix (Z.to_nat (maxLen - 3)) s) as (rest & Hrest & Hlen).
    exists (String.substring 0 (Z.to_nat (maxLen - 3)) s), rest.
    split; [done|]. split; [lia | done].
Qed.

(** X3.  For a positive height and a cursor that is not negative,
    [VisibleSlice] returns a start that is never negative, is 0 when the
    whole list fits, leaves a full window inside the list when it does not
    fit, and shows the cursor whenever the cursor is inside the list. *)
Theorem VisibleSlice_shows_cursor (total cursor height : Z) :
  0 < height → 0 ≤ total < 2 ^ 63 → 0 ≤ cursor < 2 ^ 63 - 1 →
  let start := VisibleSlice total cursor height in
  0 ≤ start
  ∧ (total ≤ height → start = 0)
  ∧ (height < total → start + height ≤ total)
  ∧ (cursor < total → start ≤ cursor < start + height).
Proof.
  intros Hh Ht Hc. unfold VisibleSlice.
  destruct (Z.leb_spec total height) as [Hfit|Hbig]; [simpl; lia|].
  destruct (Z.leb_spec height cursor) as [Hlow|Hhigh].
  - rewrite (wrap64_id (cursor - height)) by lia.
    rewrite (wrap64_id (cursor - height + 1)) by lia.
    rewrite (wrap64_id (cursor - height + 1 + height)) by lia.
    rewrite (wrap64_id (total - height)) by lia.
    destruct (Z.ltb_spec total (cursor - height + 1 + height)); simpl; lia.
  - rewrite (wrap64_id (0 + height)) by lia.
    rewrite (wrap64_id (total - height)) by lia.
    destruct (Z.ltb_spec total (0 + height)); simpl; lia.
Qed.

Lemma VisibleSlice_shows_cursor_witness :
  let start := VisibleSlice 50 30 10 in
  0 ≤ start ∧ start + 10 ≤ 50 ∧ start ≤ 30 < start + 10.
Proof.
  assert (H1 : 0 < 10) by lia.
  assert (H2 : 0 ≤ 50 < 2 ^ 63) by lia.
  assert (H3 : 0 ≤ 30 < 2 ^ 63 - 1) by lia.
  destruct (VisibleSlice_shows_cursor 50 30 10 H1 H2 H3) as (A & _ & B & C).
  assert (H4 : 10 < 50) by lia. assert (H5 : 30 < 50) by lia.
  exact (conj A (conj (B H4) (C H5))).
Defined.

Lemma truncate_fits_witness :
  truncate "feature/login" 8 = "featu..." ∧ truncate "main" 8 = "main".
Proof.
  destruct (truncate_fits "main" 8) as (_ & Hfit & _).
  split; [reflexivity|]. apply Hfit. simpl. lia.
Defined.

(** ** Killing a pane and capturing its lines *)

Lemma byteIs_eqb c n : (n < 256)%nat → byteIs c n = Ascii.eqb c (ascii_of_nat n).
Proof.
  intros Hn. unfold byteIs. destruct (Ascii.eqb_spec c (ascii_of_nat n)) as [->|Hne].
  - rewrite nat_ascii_embedding by done. apply Nat.eqb_refl.
  - apply Nat.eqb_neq. intros E. apply Hne. rewrite <- E.
    by rewrite ascii_nat_embedding.
Qed.

Lemma splitAt_nonempty f s : ∃ t ts, splitAt f s = t :: ts.
Proof.
  induction s as [|c s (t & ts & IH)]; simpl; [by eexists _, _|].
  destruct (f c); [by eexists _, _|]. rewrite IH. by eexists _, _.
Qed.

Lemma splitAt_newline_single s :
  (length (splitAt (fun c => byteIs c 10) s) <=? 1)%nat = negb (hasByte nlByte s).
Proof.
  induction s as [|c s IH]; simpl; [done|].
  rewrite (byteIs_eqb c 10) by lia. fold nlByte.
  destruct (Ascii.eqb c nlByte); simpl.
  - destruct (splitAt_nonempty (fun c => byteIs c 10) s) as (t & ts & ->). done.
  - destruct (splitAt_nonempty (fun c => byteIs c 10) s) as (t & ts & E).
    rewrite E in *. simpl in *. done.
Qed.

(** X4.  [KillPane] lists the panes of the window [session:window] of the
    target; when that fails it returns the error and kills nothing; when
    the trimmed listing is a single line (also when it is empty) it kills
    the window, and when it has more than one line it kills the pane. *)
Theorem KillPane_window_when_sole_pane
  (listPanes : string → option string) (target : string) :
  let sessionWindow :=
    (parseTarget target).1.1 +:+ ":" +:+ (parseTarget target).1.2 in
  (listPanes sessionWindow = None → KillPane listPanes target = None)
  ∧ (∀ out, listPanes sessionWindow = Some out →
       KillPane listPanes target
       = Some (if hasByte nlByte (TrimSpace out) then KillPaneOnly target
               else KillWindow sessionWindow)).
Proof.
  unfold KillPane. destruct (parseTarget target) as [[session window] pane].
  simpl. split.
  - intros ->. done.
  - intros out ->. rewrite splitAt_newline_single.
    by destruct (hasByte nlByte (TrimSpace out)).
Qed.

Lemma KillPane_window_when_sole_pane_witness :
  KillPane (fun _ => Some ("0: [80x24] [history 10/2000] %3 (active)" +:+ nl))
    "main:2.1"
  = Some (KillWindow "main:2").
Proof.
  destruct (KillPane_window_when_sole_pane
              (fun _ => Some ("0: [80x24] [history 10/2000] %3 (active)" +:+ nl))
              "main:2.1") as [_ H].
  exact (H _ eq_refl).
Defined.

Lemma append_assoc (a b c : string) : (a +:+ b) +:+ c = a +:+ b +:+ c.
Proof. induction a as [|d a IH]; [done|]. rewrite !append_String. by f_equal. Qed.

Lemma append_empty_r (a : string) : a +:+ "" = a.
Proof. induction a as [|d a IH]; [done|]. rewrite append_String. by f_equal. Qed.

Lemma Join_splitAt_newline s : Join (splitAt (fun c => byteIs c 10) s) nl = s.
Proof.
  induction s as [|c s IH]; [done|]. simpl.
  destruct (splitAt_nonempty (fun c => byteIs c 10) s) as (t & ts & E).
  rewrite E in *. destruct (byteIs c 10) eqn:Hc.
  - rewrite Join_cons by done. rewrite IH.
    rewrite (byteIs_eqb c 10) in Hc by lia. apply Ascii.eqb_eq in Hc as ->. done.
  - destruct ts as [|t' ts'].
    + simpl in *. by rewrite IH.
    + rewrite !Join_cons in * by done. rewrite append_String. by rewrite IH.
Qed.

Lemma splitAt_no_newline s :
  Forall (fun l => hasByte nlByte l = false) (splitAt (fun c => byteIs c 10) s).
Proof.
  induction s as [|c s IH]; simpl; [by constructor|].
  rewrite (byteIs_eqb c 10) by lia. fold nlByte.
  destruct (Ascii.eqb c nlByte) eqn:Hc; [by constructor|].
  destruct (splitAt (fun c => byteIs c 10) s) as [|t ts]; [by repeat constructor; simpl; rewrite Hc|].
  inversion IH as [|? ? Ht Hts]; subst. constructor; [|done]. simpl. by rewrite Hc.
Qed.

Lemma Join_drop (lines : list string) (k : nat) (sep : string) :
  (k < length lines)%nat →
  ∃ pre, Join lines sep = pre +:+ Join (drop k lines) sep.
Proof.
  revert lines. induction k as [|k IH]; intros lines Hk; [by exists ""|].
  destruct lines as [|l rest]; [simpl in Hk; lia|]. simpl in Hk.
  destruct (IH rest) as [pre Hpre]; [lia|].
  exists (l +:+ sep +:+ pre). rewrite Join_cons by (destruct rest; simpl in *; [lia | done]).
  rewrite Hpre. simpl. by rewrite !append_assoc.
Qed.

(** X5.  When the capture fails [capturePaneLines] returns no lines;
    otherwise it returns between one and ten lines, none of which holds a
    newline, and joined by newlines they are the end of the captured text
    (trailing newlines removed), all of it when it has at most ten lines. *)
Theorem capturePaneLines_last_ten (out : string) :
  let text := TrimRightNewlines out in
  let lines := capturePaneLinesOf (Some out) in
  capturePaneLinesOf None = []
  ∧ (1 ≤ length lines ≤ 10)%nat
  ∧ Forall (fun l => hasByte nlByte l = false) lines
  ∧ (∃ pre, text = pre +:+ Join lines nl)
  ∧ ((length (splitAt (fun c => byteIs c 10) text) ≤ 10)%nat →
     Join lines nl = text).
Proof.
  intros text lines. subst lines. unfold capturePaneLinesOf. fold text.
  set (all := splitAt (fun c => byteIs c 10) text).
  assert (Hall : Join all nl = text) by apply Join_splitAt_newline.
  assert (Hne : (1 ≤ length all)%nat).
  { subst all. destruct (splitAt_nonempty (fun c => byteIs c 10) text)
      as (t & ts & ->). simpl. lia. }
  assert (Hnl : Forall (fun l => hasByte nlByte l = false) all)
    by apply splitAt_no_newline.
  split; [done|].
  destruct (Nat.ltb_spec 10 (length all)) as [Hlong|Hshort].
  - split; [rewrite length_drop; lia|]. split; [by apply Forall_drop|].
    split; [|lia].
    destruct (Join_drop all (length all - 10) nl) as [pre Hpre]; [lia|].
    exists pre. by rewrite <- Hall.
  - split; [lia|]. split; [done|]. split; [|done].
    exists "". by rewrite Hall.
Qed.

Lemma capturePaneLines_last_ten_witness :
  Join (capturePaneLinesOf (Some ("one" +:+ nl +:+ "two?" +:+ nl +:+ nl))) nl
  = "one" +:+ nl +:+ "two?".
Proof.
  destruct (capturePaneLines_last_ten ("one" +:+ nl +:+ "two?" +:+ nl +:+ nl))
    as (_ & _ & _ & _ & H).
  apply H. vm_compute. lia.
Defined.

(** ** More on detector resolution *)

Lemma IsAgent_Get registry cmd :
  IsAgent registry cmd = true ↔ is_Some (Get registry cmd).
Proof. unfold IsAgent, Get. apply bool_decide_eq_true. Qed.

Lemma resolveArgs_registered registry toks arg :
  resolveArgs registry toks = Some arg → IsAgent registry arg = true.
Proof.
  induction toks as [|t rest IH]; simpl; [done|].
  destruct (IsAgent registry (stripPath t)) eqn:E; [|exact IH].
  by intros [= <-].
Qed.

Lemma resolveChildren_registered registry pt children :
  resolveChildren registry pt children = ""
  ∨ IsAgent registry (resolveChildren registry pt children) = true.
Proof.
  induction children as [|c rest IH]; simpl; [by left|].
  destruct (IsAgent registry (stripPath (commOf pt c))) eqn:E; [by right|].
  destruct (resolveArgs registry (SplitSpace (argsOf pt c))) as [arg|] eqn:Ea;
    [|exact IH].
  right. by apply resolveArgs_registered in Ea.
Qed.

Lemma Resolve_registered registry cmd shellPID pt :
  Resolve registry cmd shellPID pt = ""
  ∨ IsAgent registry (Resolve registry cmd shellPID pt) = true.
Proof.
  unfold Resolve. destruct (IsAgent registry cmd) eqn:E; [by right|].
  apply resolveChildren_registered.
Qed.

Lemma Resolve_fixed registry cmd shellPID pt :
  IsAgent registry cmd = true → Resolve registry cmd shellPID pt = cmd.
Proof. intros H. unfold Resolve. by rewrite H. Qed.

(** X6.  [Resolve] answers with the empty string or with a registered name,
    never with anything else; so every pane [resolveAgentPanes] keeps
    carries a name for which [Get] finds a detector, the panes kept are
    taken in order from the input with only the command replaced, and
    resolving the result once more changes nothing. *)
Theorem resolveAgentPanes_registered_names
  (registry : gmap string Provider) (raw : list rawPane) (pt : ProcessTable) :
  let agents := resolveAgentPanes registry raw pt in
  Forall (fun r => is_Some (Get registry (r_cmd r))) agents
  ∧ (fun r => (r_target r, r_path r, r_pid r)) <$> agents
    = (fun r => (r_target r, r_path r, r_pid r))
        <$> List.filter
              (fun r => negb (String.eqb (Resolve registry (r_cmd r) (r_pid r) pt) ""))
              raw
  ∧ resolveAgentPanes registry agents pt = agents.
Proof.
  intros agents. subst agents. split; [|split].
  - induction raw as [|r rest IH]; simpl; [constructor|].
    destruct (String.eqb_spec (Resolve registry (r_cmd r) (r_pid r) pt) "")
      as [E|E]; [exact IH|].
    constructor; [|exact IH]. simpl. apply IsAgent_Get.
    by destruct (Resolve_registered registry (r_cmd r) (r_pid r) pt).
  - rewrite resolveAgentPanes_filter, <- list_fmap_compose. done.
  - induction raw as [|r rest IH]; simpl; [done|].
    destruct (String.eqb_spec (Resolve registry (r_cmd r) (r_pid r) pt) "")
      as [E|E]; [exact IH|].
    simpl. rewrite Resolve_fixed.
    + destruct (String.eqb_spec (Resolve registry (r_cmd r) (r_pid r) pt) "");
        [done|]. by rewrite IH.
    + by destruct (Resolve_registered registry (r_cmd r) (r_pid r) pt).
Qed.

(** ** Moving the cursor back and forth *)

(** X7.  On a pane row, a step down that moves the cursor is undone by a
    step up, and a step up that moves it is undone by a step down. *)
Theorem NextPane_PrevPane_inverse (items : list TreeItem) (c r : Z) :
  sliceLen items → paneAt items c = true → r ≠ c →
  (NextPane items c = Some r → PrevPane items r = Some c)
  ∧ (PrevPane items c = Some r → NextPane items r = Some c).
Proof.
  intros Hlen Hc Hne. pose proof (paneAt_range _ _ Hc) as Hrange.
  pose proof Hlen as Hlen'. unfold sliceLen in Hlen'. split; intros Hr.
  - destruct (NextPane_spec items c Hlen) as (r' & Hr' & Hcase); [lia|].
    rewrite Hr in Hr'. injection Hr' as <-.
    destruct Hcase as [(Hlt & Hpr & Hmin) | (-> & _)]; [|done].
    pose proof (paneAt_range _ _ Hpr) as Hrr.
    destruct (PrevPane_spec items r Hlen) as (p & Hp & Hcase); [lia|].
    rewrite Hp. f_equal.
    destruct Hcase as [(Hlt' & Hpp & Hmin') | (-> & Hnone)].
    + destruct (Z.lt_trichotomy p c) as [H | [H | H]]; [|done|].
      * rewrite Hmin' in Hc by lia. done.
      * rewrite Hmin in Hpp by lia. done.
    + rewrite Hnone in Hc by lia. done.
  - destruct (PrevPane_spec items c Hlen) as (r' & Hr' & Hcase); [lia|].
    rewrite Hr in Hr'. injection Hr' as <-.
    destruct Hcase as [(Hlt & Hpr & Hmin) | (-> & _)]; [|done].
    pose proof (paneAt_range _ _ Hpr) as Hrr.
    destruct (NextPane_spec items r Hlen) as (p & Hp & Hcase); [lia|].
    rewrite Hp. f_equal.
    destruct Hcase as [(Hlt' & Hpp & Hmin') | (-> & Hnone)].
    + destruct (Z.lt_trichotomy p c) as [H | [H | H]]; [|done|].
      * rewrite Hmin in Hpp by lia. done.
      * rewrite Hmin' in Hc by lia. done.
    + rewrite Hnone in Hc by lia. done.
Qed.

Lemma NextPane_PrevPane_inverse_witness :
  PrevPane [headerRow 0; paneRow 0 0; headerRow 1; paneRow 1 0] 3 = Some 1.
Proof.
  assert (Hlen : sliceLen [headerRow 0; paneRow 0 0; headerRow 1; paneRow 1 0])
    by (unfold sliceLen; simpl; lia).
  assert (Hne : (3 : Z) ≠ 1) by lia.
  destruct (NextPane_PrevPane_inverse
              [headerRow 0; paneRow 0 0; headerRow 1; paneRow 1 0] 1 3
              Hlen eq_refl Hne) as [H _].
  exact (H eq_refl).
Defined.

(** ** More on the activity history *)

(** X8.  The mapping the scan builds does not depend on the order of the
    lines of the log. *)
Theorem historyScan_order_irrelevant (lines lines' : list decodedLine) :
  lines ≡ₚ lines' → historyScan lines = historyScan lines'.
Proof.
  intros Hperm. apply map_eq. intros p.
  assert (Hmax : ∀ t, maxTimestamp lines p t ↔ maxTimestamp lines' p t).
  { intros t. unfold maxTimestamp. split; intros [(e & He & Hrest) Hle].
    - split; [exists e; by rewrite <- Hperm|].
      intros e' He'. apply Hle. by rewrite Hperm.
    - split; [exists e; by rewrite Hperm|].
      intros e' He'. apply Hle. by rewrite <- Hperm. }
  destruct (historyScan lines !! p) as [t|] eqn:E1;
    destruct (historyScan lines' !! p) as [t'|] eqn:E2; [| | |done].
  - apply historyScan_lookup, Hmax, historyScan_lookup in E1. congruence.
  - apply historyScan_lookup, Hmax, historyScan_lookup in E1. congruence.
  - apply historyScan_lookup, Hmax, historyScan_lookup in E2. congruence.
Qed.

Lemma historyScan_order_irrelevant_witness :
  historyScan [ Some {| Timestamp := 50; Project := "/a" |};
                Some {| Timestamp := 100; Project := "/a" |} ]
  = historyScan [ Some {| Timestamp := 100; Project := "/a" |};
                  Some {| Timestamp := 50; Project := "/a" |} ].
Proof.
  apply historyScan_order_irrelevant. apply perm_swap.
Defined.

(** X9.  Whatever the host answers, the mapping [LastActiveByProject]
    returns is the one the cache holds afterwards; when it returns nil the
    cache is left exactly as it was; a cache that held a mapping still
    holds one; and the cache changes only after the file was opened. *)
Theorem LastActiveByProject_cache_consistent (fs : HistoryFile) (cache : HistoryCache) :
  let r := LastActiveByProject fs cache in
  (∀ d, r.1.1 = Some d → hc_data r.1.2 = Some d)
  ∧ (r.1.1 = None → r.1.2 = cache)
  ∧ (is_Some (hc_data cache) → is_Some (hc_data r.1.2))
  ∧ (r.1.2 ≠ cache → EvOpen ∈ r.2).
Proof.
  unfold LastActiveByProject.
  destruct (homeDirErr fs); [simpl; by repeat split|].
  destruct (statModTime fs) as [mt|]; [|simpl; by repeat split].
  destruct cache as [m0 [d0|]]; simpl;
    [destruct (Z.eqb_spec mt m0) as [->|Hm]; simpl|];
    try destruct (openLines fs) as [lines|]; simpl;
    (split; [|split; [|split]]); intros; simplify_eq/=; try done;
    try (by eexists); apply list_elem_of_In; simpl; tauto.
Qed.

(** ** Counting the rows of the flattened tree *)

Lemma filter_imap_all {A B} (P : B → bool) (l : list A) : ∀ g : nat → A → B,
  (∀ i x, P (g i x) = true) → List.filter P (imap g l) = imap g l.
Proof.
  induction l as [|a l IH]; intros g Hg; [done|].
  rewrite imap_cons. simpl. rewrite Hg. f_equal. apply IH. intros i x. apply Hg.
Qed.

Lemma rowsOf_length j ws : length (rowsOf j ws) = S (length (Panes ws)).
Proof. unfold rowsOf. simpl. by rewrite length_imap. Qed.

Lemma rowsOf_panes j ws :
  length (List.filter isPane (rowsOf j ws)) = length (Panes ws).
Proof.
  unfold rowsOf. simpl. rewrite filter_imap_all by done. apply length_imap.
Qed.

Lemma rows_length (wss : list Workspace) : ∀ k,
  length (concat (imap (fun i ws => rowsOf (k + i) ws) wss))
  = (length wss + totalPanes wss)%nat
  ∧ length (List.filter isPane (concat (imap (fun i ws => rowsOf (k + i) ws) wss)))
    = totalPanes wss.
Proof.
  induction wss as [|ws rest IH]; intros k; [done|].
  destruct (IH (S k)) as [IH1 IH2].
  assert (Hext : imap ((fun i ws => rowsOf (k + i) ws) ∘ S) rest
                 = imap (fun i ws => rowsOf (S k + i) ws) rest).
  { apply imap_ext. intros i x _. simpl. f_equal. lia. }
  rewrite imap_cons, concat_cons, Hext, List.filter_app, !length_app, IH1, IH2.
  rewrite rowsOf_length, rowsOf_panes. simpl. lia.
Qed.

(** X10.  The flattened tree has one row per workspace and one per pane:
    its length is the number of workspaces plus the number of their panes,
    and its pane rows are as many as the panes. *)
Theorem FlattenTree_row_count (wss : list Workspace) :
  length (FlattenTree wss) = (length wss + totalPanes wss)%nat
  ∧ length (List.filter isPane (FlattenTree wss)) = totalPanes wss
  ∧ length (List.filter (fun it => negb (isPane it)) (FlattenTree wss)) = length wss.
Proof.
  rewrite FlattenTree_rows.
  assert (H1 : length (concat (imap rowsOf wss))
               = (length wss + totalPanes wss)%nat)
    by exact (proj1 (rows_length wss 0)).
  assert (H2 : length (List.filter isPane (concat (imap rowsOf wss)))
               = totalPanes wss)
    by exact (proj2 (rows_length wss 0)).
  split; [exact H1|]. split; [exact H2|].
  pose proof (List.filter_length isPane (concat (imap rowsOf wss))) as Hsum.
  lia.
Qed.

(** ** Prefixes, suffixes and substrings *)

Lemma HasPrefix_spec s p : HasPrefix s p = true ↔ ∃ rest, s = p +:+ rest.
Proof.
  unfold HasPrefix. revert s. induction p as [|c p IH]; intros s.
  - split; [intros _; by exists s | intros _; apply HasPrefix_empty].
  - destruct s as [|d s]; simpl.
    + split; [done | intros [rest H]; done].
    + destruct (ascii_dec c d) as [->|Hne].
      * rewrite IH. split; intros [rest H]; exists rest.
        -- rewrite append_String. by f_equal.
        -- rewrite append_String in H. by injection H.
      * split; [done|]. intros [rest H]. rewrite append_String in H.
        injection H as H1 _. congruence.
Qed.

Lemma substring_0_all s : String.substring 0 (String.length s) s = s.
Proof. induction s as [|c s IH]; [done|]. simpl. by rewrite IH. Qed.

Lemma substring_skip pre m t :
  String.substring (String.length pre) m (pre +:+ t) = String.substring 0 m t.
Proof. induction pre as [|c pre IH]; [done|]. rewrite append_String. exact IH. Qed.

Lemma substring_tail k s :
  (k ≤ String.length s)%nat →
  ∃ pre, s = pre +:+ String.substring k (String.length s - k) s.
Proof.
  revert s. induction k as [|k IH]; intros s Hk.
  - exists "". rewrite Nat.sub_0_r, substring_0_all. done.
  - destruct s as [|c s]; [simpl in Hk; lia|]. simpl in Hk.
    destruct (IH s) as [pre Hpre]; [lia|]. exists (String c pre).
    rewrite append_String. simpl. by rewrite <- Hpre.
Qed.

Lemma HasSuffix_spec s suf : HasSuffix s suf = true ↔ ∃ pre, s = pre +:+ suf.
Proof.
  unfold HasSuffix, len. split.
  - intros [Hlen Heq]%andb_true_iff. apply Nat.leb_le in Hlen.
    apply String.eqb_eq in Heq.
    destruct (substring_tail (String.length s - String.length suf) s) as [pre Hpre];
      [lia|].
    exists pre.
    replace (String.length s - (String.length s - String.length suf))%nat
      with (String.length suf) in Hpre by lia.
    rewrite Heq in Hpre. exact Hpre.
  - intros [pre ->]. rewrite length_append. apply andb_true_iff. split.
    + apply Nat.leb_le. lia.
    + replace (String.length pre + String.length suf - String.length suf)%nat
        with (String.length pre) by lia.
      rewrite substring_skip, substring_0_all. apply String.eqb_refl.
Qed.

Lemma Contains_spec s p : Contains s p = true ↔ ∃ a b, s = a +:+ p +:+ b.
Proof.
  split.
  - induction s as [|c s IH]; rewrite Contains_unfold.
    + rewrite orb_false_r. intros [rest H]%HasPrefix_spec. by exists "", rest.
    + intros [[rest H]%HasPrefix_spec | H]%orb_true_iff; [by exists "", rest|].
      destruct (IH H) as (a & b & ->). by exists (String c a), b.
  - intros (a & b & ->). apply Contains_app_r, Contains_app_l.
    apply Contains_HasPrefix, HasPrefix_spec. exists "". by rewrite append_empty_r.
Qed.

(** ** Busy detection *)

Lemma HasGrandchild_spec pt pid name :
  HasGrandchild pt pid name = true ↔
  ∃ child grandchild,
    child ∈ childrenOf pt pid ∧ grandchild ∈ childrenOf pt child
    ∧ (commOf pt grandchild = name
       ∨ ∃ dir, commOf pt grandchild = dir +:+ "/" +:+ name).
Proof.
  unfold HasGrandchild. rewrite existsb_exists. split.
  - intros (child & Hc & (g & Hg & Hcomm)%existsb_exists).
    exists child, g. rewrite !list_elem_of_In. split; [done|]. split; [done|].
    apply orb_true_iff in Hcomm as [H%String.eqb_eq | H%HasSuffix_spec]; auto.
  - intros (child & g & Hc & Hg & Hcomm). exists child.
    rewrite <- list_elem_of_In. split; [done|]. apply existsb_exists. exists g.
    rewrite <- list_elem_of_In. split; [done|]. apply orb_true_iff.
    destruct Hcomm as [H | H]; [left; by apply String.eqb_eq | right].
    by apply HasSuffix_spec.
Qed.

(** X11.  For a pane of the Claude detector whose captured lines ask for no
    attention, the status is busy exactly when some child of the pane's
    process has a child whose command is "caffeinate" or a path that ends
    in "/caffeinate", and idle otherwise. *)
Theorem detectStatus_claude_caffeinate
  (capturePaneLines : string → list string) (shellPID : Z) (target : string)
  (pt : ProcessTable) :
  needsAttention (capturePaneLines target) = false →
  let st := detectStatus registry0 capturePaneLines shellPID target "claude" pt in
  (st = StatusBusy ∨ st = StatusIdle)
  ∧ (st = StatusBusy ↔
     ∃ child grandchild,
       child ∈ childrenOf pt shellPID ∧ grandchild ∈ childrenOf pt child
       ∧ (commOf pt grandchild = "caffeinate"
          ∨ ∃ dir, commOf pt grandchild = dir +:+ "/caffeinate")).
Proof.
  intros Hno st. subst st. unfold detectStatus. rewrite Hno.
  assert (Hget : Get registry0 "claude" = Some Claude) by (by vm_compute).
  rewrite Hget. simpl. rewrite <- HasGrandchild_spec.
  destruct (HasGrandchild pt shellPID "caffeinate"); split; auto; split; done.
Qed.

Lemma detectStatus_claude_caffeinate_witness :
  detectStatus registry0 (fun _ => ["Thinking..."]) 10 "main:2.1" "claude"
    {| Children := {[10 := [11]; 11 := [12]]};
       Comm := {[11 := "claude"; 12 := "/usr/bin/caffeinate"]};
       Args := ∅ |}
  = StatusBusy.
Proof.
  destruct (detectStatus_claude_caffeinate (fun _ => ["Thinking..."]) 10 "main:2.1"
              {| Children := {[10 := [11]; 11 := [12]]};
                 Comm := {[11 := "claude"; 12 := "/usr/bin/caffeinate"]};
                 Args := ∅ |} eq_refl) as [_ H].
  apply H. exists 11, 12. split; [by vm_compute; apply list_elem_of_In; left|].
  split; [by vm_compute; apply list_elem_of_In; left|].
  right. exists "/usr/bin". reflexivity.
Defined.

Lemma linesContain_spec needle lines :
  linesContain needle lines = true ↔ ∃ l, l ∈ lines ∧ Contains l needle = true.
Proof.
  unfold linesContain. rewrite existsb_exists. split.
  - intros (l & Hl & Hc). exists l. split; [|done].
    apply elem_of_rev. by apply list_elem_of_In.
  - intros (l & Hl & Hc). exists l. split; [|done].
    apply list_elem_of_In. by apply elem_of_rev.
Qed.

(** X12.  For a pane whose captured lines ask for no attention: under the
    Gemini, Codex and OpenCode detectors the status is busy exactly when
    some captured line contains "esc to cancel", "esc to interrupt" and
    "esc interrupt" respectively, and idle otherwise; under a command that
    is not registered it is idle. *)
Theorem detectStatus_interrupt_marker
  (capturePaneLines : string → list string) (shellPID : Z) (target : string)
  (pt : ProcessTable) :
  needsAttention (capturePaneLines target) = false →
  let status := fun cmd =>
    detectStatus registry0 capturePaneLines shellPID target cmd pt in
  let marked := fun marker =>
    ∃ l, l ∈ capturePaneLines target ∧ Contains l marker = true in
  (status "gemini" = StatusBusy ↔ marked "esc to cancel")
  ∧ (status "codex" = StatusBusy ↔ marked "esc to interrupt")
  ∧ (status "opencode" = StatusBusy ↔ marked "esc interrupt")
  ∧ (∀ cmd, status cmd = StatusBusy ∨ status cmd = StatusIdle)
  ∧ (∀ cmd, Get registry0 cmd = None → status cmd = StatusIdle).
Proof.
  intros Hno status marked. subst status marked. unfold detectStatus.
  rewrite Hno.
  assert (Hg : Get registry0 "gemini" = Some Gemini) by (by vm_compute).
  assert (Hc : Get registry0 "codex" = Some Codex) by (by vm_compute).
  assert (Ho : Get registry0 "opencode" = Some OpenCode) by (by vm_compute).
  rewrite Hg, Hc, Ho. simpl. rewrite <- !linesContain_spec.
  split; [|split; [|split; [|split]]].
  - destruct (linesContain "esc to cancel" _); split; done.
  - destruct (linesContain "esc to interrupt" _); split; done.
  - destruct (linesContain "esc interrupt" _); split; done.
  - intros cmd. destruct (Get registry0 cmd) as [p|]; [|by right].
    destruct (IsBusy p _ _ _); auto.
  - intros cmd ->. done.
Qed.

Lemma detectStatus_interrupt_marker_witness :
  detectStatus registry0 (fun _ => ["Working (11s, esc to interrupt)"]) 10
    "main:2.1" "codex" {| Children := ∅; Comm := ∅; Args := ∅ |}
  = StatusBusy.
Proof.
  destruct (detectStatus_interrupt_marker
              (fun _ => ["Working (11s, esc to interrupt)"]) 10 "main:2.1"
              {| Children := ∅; Comm := ∅; Args := ∅ |} eq_refl)
    as (_ & H & _).
  apply H. exists "Working (11s, esc to interrupt)".
  split; [apply elem_of_cons; by left | by vm_compute].
Defined.

(** ** Grouping panes into workspaces *)

Lemma ltb_le a b : String.ltb a b = true ↔ (a ≤ b)%string ∧ a ≠ b.
Proof.
  unfold String.ltb, String.le, String.leb.
  destruct (a ?= b)%string eqn:E.
  - apply String.compare_eq_iff in E. split; [done | intros [_ H]; done].
  - split; [|done]. intros _. split; [done|]. intros ->.
    pose proof (String.compare_antisym b b) as H. rewrite E in H. done.
  - split; [done | intros [H _]; done].
Qed.

Lemma ltb_trans a b c :
  String.ltb a b = true → String.ltb b c = true → String.ltb a c = true.
Proof.
  rewrite !ltb_le. intros [Hab Hne1] [Hbc Hne2]. split; [by etrans|].
  intros ->. apply Hne1. by apply (anti_symm String.le).
Qed.

Lemma ltb_total a b : a ≠ b → String.ltb a b = false → String.ltb b a = true.
Proof.
  intros Hne. unfold String.ltb. rewrite (String.compare_antisym b a).
  destruct (a ?= b)%string eqn:E; try done.
  apply String.compare_eq_iff in E. done.
Qed.

Lemma insertByPath_ascend w wss :
  pathsAscend wss → (∀ w', w' ∈ wss → WsPath w' ≠ WsPath w) →
  pathsAscend (insertByPath w wss).
Proof.
  induction wss as [|x rest IH]; intros Hs Hne; simpl.
  - split; [|done]. intros ws' H. by apply elem_of_nil in H.
  - destruct Hs as [Hx Hrest].
    assert (Hxw : WsPath x ≠ WsPath w) by (apply Hne, elem_of_cons; by left).
    destruct (String.ltb (WsPath x) (WsPath w)) eqn:E; simpl.
    + split.
      * intros ws' [-> | H]%insertByPath_elem; [done | by apply Hx].
      * apply IH; [done|]. intros w' Hw'. apply Hne, elem_of_cons. by right.
    + assert (Hwx : String.ltb (WsPath w) (WsPath x) = true) by by apply ltb_total.
      split; [|by split].
      intros ws' [-> | H]%elem_of_cons; [done|].
      apply ltb_trans with (WsPath x); [done | by apply Hx].
Qed.

Lemma sortByPath_ascend l :
  NoDup (WsPath <$> l) → pathsAscend (foldr insertByPath [] l).
Proof.
  induction l as [|w rest IH]; simpl; [done|].
  intros [Hw Hnd]%NoDup_cons. apply insertByPath_ascend; [by apply IH|].
  intros w' Hw' Heq. rewrite sortByPath_elem in Hw'. apply Hw. rewrite <- Heq.
  by apply list_elem_of_fmap_2.
Qed.

Lemma groups_lookup panes : ∀ (groups : gmap string (list Pane)) k,
  fold_left groupStep panes groups !! k
  = match List.filter (fun p => String.eqb (Path p) k) panes with
    | [] => groups !! k
    | l => Some (default [] (groups !! k) ++ l)
    end.
Proof.
  induction panes as [|p rest IH]; intros groups k; [done|]. simpl.
  rewrite IH. unfold groupStep at 1 2.
  destruct (String.eqb_spec (Path p) k) as [<-|Hne].
  - rewrite lookup_insert_eq. simpl.
    destruct (List.filter (fun p0 => String.eqb (Path p0) (Path p)) rest);
      [done|]. by rewrite <- app_assoc.
  - by rewrite lookup_insert_ne.
Qed.

(** X13.  [GroupByWorkspace] returns the workspaces in strictly ascending
    order of their paths (so no path twice); the panes of each workspace
    are exactly the panes with its path, in the order they were listed, and
    there is at least one; and every pane's path has its workspace. *)
Theorem GroupByWorkspace_groups_by_path (host : Host) (panes : list Pane) :
  let wss := GroupByWorkspace host panes in
  pathsAscend wss
  ∧ (∀ ws, ws ∈ wss →
       Panes ws ≠ []
       ∧ Panes ws = List.filter (fun p => String.eqb (Path p) (WsPath ws)) panes)
  ∧ (∀ p, p ∈ panes → ∃ ws, ws ∈ wss ∧ WsPath ws = Path p).
Proof.
  intros wss. subst wss. unfold GroupByWorkspace.
  set (groups := fold_left groupStep panes ∅).
  assert (Hlk : ∀ k, groups !! k
                     = match List.filter (fun p => String.eqb (Path p) k) panes with
                       | [] => None
                       | l => Some l
                       end).
  { intros k. subst groups. rewrite groups_lookup, lookup_empty. done. }
  split; [|split].
  - apply sortByPath_ascend. rewrite <- list_fmap_compose.
    replace (WsPath ∘ (fun kv : string * list Pane => mkWorkspace host kv.1 kv.2))
      with (@fst string (list Pane)) by done.
    apply NoDup_fst_map_to_list.
  - intros ws. rewrite sortByPath_elem, list_elem_of_fmap.
    intros ([k v] & -> & Hkv%elem_of_map_to_list). simpl.
    rewrite Hlk in Hkv.
    destruct (List.filter (fun p => String.eqb (Path p) k) panes) as [|x l];
      [done|]. by injection Hkv as <-.
  - intros p Hp.
    assert (Hf : p ∈ List.filter (fun q => String.eqb (Path q) (Path p)) panes).
    { apply list_elem_of_In, List.filter_In. split; [by apply list_elem_of_In|].
      apply String.eqb_refl. }
    destruct (List.filter (fun q => String.eqb (Path q) (Path p)) panes)
      as [|x l] eqn:E; [by apply elem_of_nil in Hf|].
    exists (mkWorkspace host (Path p) (x :: l)). split; [|done].
    apply sortByPath_elem, list_elem_of_fmap. exists (Path p, x :: l).
    split; [done|]. apply elem_of_map_to_list. by rewrite Hlk, E.
Qed.

(** ** The cursor invariant of the update loop *)

Lemma killCurrentPane_total m :
  validRefs (workspaces m) (items m) → is_Some (killCurrentPane m).
Proof.
  intros Hrefs. unfold killCurrentPane, currentTarget.
  destruct ((cursor m <? 0) || (Z.of_nat (length (items m)) <=? cursor m)) eqn:Hb;
    [by eexists|].
  apply orb_false_iff in Hb as [H0%Z.ltb_ge H1%Z.leb_gt].
  destruct (at__Some (items m) (cursor m)) as [it Hit]; [lia|].
  rewrite Hit. simpl. destruct (isPane it) eqn:Hp; simpl; [|by eexists].
  destruct (Hrefs it) as [p Hpane]; [|done|].
  { unfold at_ in Hit. destruct (cursor m <? 0); [done|].
    by apply list_elem_of_lookup_2 in Hit. }
  rewrite Hpane. by eexists.
Qed.

Lemma NearestPane_lands its from :
  sliceLen its → (its = [] ∨ ∃ j, paneAt its j = true) →
  ∃ r, NearestPane its from = Some r
       ∧ ((its = [] ∧ r = 0) ∨ paneAt its r = true).
Proof.
  intros Hlen [-> | (j & Hj)]; [exists 0; split; [done | by left]|].
  assert (Hne : its ≠ []).
  { intros ->. by rewrite paneAt_outside in Hj by (simpl; lia). }
  destruct (NearestPane_cases its from Hlen Hne) as (r & Hr & Hcase).
  exists r. split; [done|]. right.
  destruct Hcase as [(Hpc & ->) | [(_ & _ & Hpr & _)
                    | [(_ & _ & _ & Hpr & _) | (Hnone & _)]]]; try done.
  by rewrite Hnone in Hj.
Qed.

Lemma FirstPane_lands its :
  (its = [] ∨ ∃ j, paneAt its j = true) →
  (its = [] ∧ FirstPane its = 0) ∨ paneAt its (FirstPane its) = true.
Proof.
  intros [-> | (j & Hj)]; [by left|]. right.
  destruct (FirstPane_spec its) as [[H _] | [_ Hnone]]; [done|].
  by rewrite Hnone in Hj.
Qed.

Lemma FirstAttentionPane_lands its wss :
  validRefs wss its → (its = [] ∨ ∃ j, paneAt its j = true) →
  ∃ r, FirstAttentionPane its wss = Some r
       ∧ ((its = [] ∧ r = 0) ∨ paneAt its r = true).
Proof.
  intros Hrefs Hpane.
  destruct (FirstAttentionPane_spec its wss Hrefs) as (r & Hr & Hcase).
  exists r. split; [done|].
  destruct Hcase as [[H _] | [-> _]]; [right; by apply attentionAt_paneAt with wss|].
  by apply FirstPane_lands.
Qed.

Lemma NextPane_lands its c :
  sliceLen its → ((its = [] ∧ c = 0) ∨ paneAt its c = true) →
  ∃ r, NextPane its c = Some r ∧ ((its = [] ∧ r = 0) ∨ paneAt its r = true).
Proof.
  intros Hlen [[-> ->] | Hc]; [exists 0; split; [done | by left]|].
  pose proof (paneAt_range _ _ Hc) as Hr. unfold sliceLen in Hlen.
  destruct (NextPane_spec its c) as (r & Hr' & Hcase); [done | lia |].
  exists r. split; [done|]. right.
  by destruct Hcase as [(_ & H & _) | (-> & _)].
Qed.

Lemma PrevPane_lands its c :
  sliceLen its → ((its = [] ∧ c = 0) ∨ paneAt its c = true) →
  ∃ r, PrevPane its c = Some r ∧ ((its = [] ∧ r = 0) ∨ paneAt its r = true).
Proof.
  intros Hlen [[-> ->] | Hc]; [exists 0; split; [done | by left]|].
  pose proof (paneAt_range _ _ Hc) as Hr. unfold sliceLen in Hlen.
  destruct (PrevPane_spec its c) as (r & Hr' & Hcase); [done | lia |].
  exists r. split; [done|]. right.
  by destruct Hcase as [(_ & H & _) | (-> & _)].
Qed.

Lemma cursorOK_refs m : cursorOK m → validRefs (workspaces m) (items m).
Proof. intros [-> _]. apply FlattenTree_validRefs. Qed.

Lemma updateKey_keeps_cursor m key :
  cursorOK m → ∃ m' cmd sw, updateKey m key = Some (m', cmd, sw) ∧ cursorOK m'.
Proof.
  intros Hok. pose proof (cursorOK_refs m Hok) as Hrefs.
  destruct Hok as (Hitems & Hlen & Hne & Hcur). unfold updateKey.
  destruct (String.eqb key "d").
  { destruct (pendingD m).
    - destruct (killCurrentPane_total (setPendingD m false) Hrefs) as [cmd Hcmd].
      rewrite Hcmd. simpl. by eexists _, _, _.
    - by eexists _, _, _. }
  destruct (String.eqb key "q" || String.eqb key "esc" || String.eqb key "ctrl+c");
    [by eexists _, _, _|].
  destruct (String.eqb key "j" || String.eqb key "down").
  { simpl. destruct (NextPane_lands (items m) (cursor m) Hlen Hcur) as (r & Hr & Hland).
    rewrite Hr. simpl. destruct (r =? cursor m); simpl; [by eexists _, _, _|].
    destruct (previewCmd_total (setCursor (setPendingD m false) r) Hrefs)
      as [cmd Hcmd].
    rewrite Hcmd. simpl. by eexists _, _, _. }
  destruct (String.eqb key "k" || String.eqb key "up").
  { simpl. destruct (PrevPane_lands (items m) (cursor m) Hlen Hcur) as (r & Hr & Hland).
    rewrite Hr. simpl. destruct (r =? cursor m); simpl; [by eexists _, _, _|].
    destruct (previewCmd_total (setCursor (setPendingD m false) r) Hrefs)
      as [cmd Hcmd].
    rewrite Hcmd. simpl. by eexists _, _, _. }
  destruct (String.eqb key "enter"); [|by eexists _, _, _].
  simpl.
  destruct ((0 <=? cursor m) && (cursor m <? Z.of_nat (length (items m)))) eqn:Hb;
    [|by eexists _, _, _].
  apply andb_true_iff in Hb as [H0%Z.leb_le H1%Z.ltb_lt].
  destruct (at__Some (items m) (cursor m)) as [it Hit]; [lia|].
  rewrite Hit. simpl. destruct (isPane it) eqn:Hp; [|by eexists _, _, _].
  destruct (Hrefs it) as [p Hpane]; [|done|].
  { unfold at_ in Hit. destruct (cursor m <? 0); [done|].
    by apply list_elem_of_lookup_2 in Hit. }
  rewrite Hpane. simpl. by eexists _, _, _.
Qed.

(** X14.  The model [NewModel] builds has its cursor on a pane row (or at
    0 when it has no rows), and [Update] keeps it so for every message and
    never panics: the items stay the flattening of the workspaces and the
    cursor never comes to rest on a workspace header. *)
Theorem Update_keeps_cursor_on_panes
  (host : Host) (m : Model) (msg : Msg) (panes0 : list Pane) (e0 : option string) :
  sliceLen (FlattenTree (GroupByWorkspace host panes0)) →
  (∀ panes e, msg = panesLoadedMsg panes e →
     sliceLen (FlattenTree (GroupByWorkspace host panes))) →
  cursorOK (NewModel host panes0 e0)
  ∧ (cursorOK m →
     ∃ m' cmd sw, Update host m msg = Some (m', cmd, sw)
                  ∧ cursorOK m'
                  ∧ headerAt (items m') (cursor m') = false).
Proof.
  intros Hslice0 Hslice.
  assert (Hfresh : ∀ panes c,
            sliceLen (FlattenTree (GroupByWorkspace host panes)) →
            (FlattenTree (GroupByWorkspace host panes) = [] ∧ c = 0
             ∨ paneAt (FlattenTree (GroupByWorkspace host panes)) c = true) →
            ∀ m0 : Model,
              workspaces m0 = GroupByWorkspace host panes →
              items m0 = FlattenTree (GroupByWorkspace host panes) →
              cursor m0 = c → cursorOK m0).
  { intros panes c Hsl Hc m0 Hw Hi Hcur. unfold cursorOK. rewrite Hw, Hi, Hcur.
    split; [done|]. split; [done|]. split; [|done].
    intros ws. apply GroupByWorkspace_nonempty. }
  assert (Hhas : ∀ panes,
            FlattenTree (GroupByWorkspace host panes) = []
            ∨ ∃ j, paneAt (FlattenTree (GroupByWorkspace host panes)) j = true).
  { intros panes. apply FlattenTree_has_pane. intros ws.
    apply GroupByWorkspace_nonempty. }
  split.
  - unfold NewModel. destruct e0 as [e|].
    + unfold cursorOK. simpl. split; [done|]. split; [done|]. split; [|by left].
      intros ws H. by apply elem_of_nil in H.
    + apply (Hfresh panes0 (FirstPane (FlattenTree (GroupByWorkspace host panes0))));
        try done.
      by apply FirstPane_lands.
  - intros Hok.
    assert (Hdone : ∀ m' cmd sw, Update host m msg = Some (m', cmd, sw) →
              cursorOK m' →
              ∃ m' cmd sw, Update host m msg = Some (m', cmd, sw)
                           ∧ cursorOK m'
                           ∧ headerAt (items m') (cursor m') = false).
    { intros m' cmd sw Hu Hok'. exists m', cmd, sw. split; [done|]. split; [done|].
      destruct Hok' as (_ & _ & _ & [[-> ->] | H]); [done|].
      by apply paneAt_not_header. }
    pose proof (cursorOK_refs m Hok) as Hrefs.
    destruct msg as [w h | panes e | target content | e | | | key].
    + eapply Hdone; [reflexivity|]. exact Hok.
    + pose proof (Hslice panes e eq_refl) as Hsl. destruct e as [e|].
      * eapply Hdone; [reflexivity|]. exact Hok.
      * destruct (updatePanesLoaded_ok host m panes Hsl) as (c & cmds & Hc & Hu).
        eapply Hdone; [unfold Update; rewrite Hu; reflexivity|]. simpl.
        apply (Hfresh panes c); try done.
        destruct (statusLoaded m).
        -- destruct (NearestPane_lands _ (cursor m) Hsl (Hhas panes))
             as (r & Hr & Hland). congruence.
        -- destruct (FirstAttentionPane_lands _ _
                       (FlattenTree_validRefs (GroupByWorkspace host panes))
                       (Hhas panes)) as (r & Hr & Hland). congruence.
    + eapply Hdone; [reflexivity|].
      destruct (String.eqb (TrimRightNewlines content) (lastPreviewContent m));
        exact Hok.
    + destruct e as [e|]; (eapply Hdone; [reflexivity|]); exact Hok.
    + destruct (previewCmd_total (setPreview m (preview m) "" (lastPreviewContent m))
                  Hrefs) as [cmd Hcmd].
      assert (Hu : Update host m previewTickMsg
                   = Some (setPreview m (preview m) "" (lastPreviewContent m),
                           match cmd with CmdNil => previewTickCmd | _ => cmd end,
                           None)).
      { simpl. rewrite Hcmd. simpl. by destruct cmd. }
      exact (Hdone _ _ _ Hu Hok).
    + eapply Hdone; [reflexivity|]. exact Hok.
    + destruct (updateKey_keeps_cursor m key Hok) as (m' & cmd & sw & Hu & Hok').
      by eapply Hdone.
Qed.

Lemma Update_keeps_cursor_on_panes_witness :
  let host := {| homeDir := "/home/u"; gitHead := fun _ => None |} in
  let panes := [examplePane StatusIdle; examplePane StatusBusy] in
  cursorOK (NewModel host panes None)
  ∧ ∃ m' cmd sw,
      Update host (NewModel host panes None) (KeyMsg "j") = Some (m', cmd, sw)
      ∧ cursorOK m' ∧ headerAt (items m') (cursor m') = false.
Proof.
  intros host panes.
  assert (Hsl : sliceLen (FlattenTree (GroupByWorkspace host panes)))
    by (vm_compute; reflexivity).
  assert (Hmsg : ∀ ps (e : option string), KeyMsg "j" = panesLoadedMsg ps e →
            sliceLen (FlattenTree (GroupByWorkspace host ps)))
    by (intros ps e H; discriminate H).
  destruct (Update_keeps_cursor_on_panes host (NewModel host panes None)
              (KeyMsg "j") panes None Hsl Hmsg) as [Hnew Hstep].
  split; [exact Hnew | exact (Hstep Hnew)].
Defined.


(** ** The parsed process table *)

Lemma is_space_asciiSpace c : Ascii.is_space c = asciiSpace c.
Proof. by destruct c as [[] [] [] [] [] [] [] []]. Qed.

Lemma spaceWidth_0 c s : spaceWidth (String c s) = 0%nat → Ascii.is_space c = false.
Proof.
  rewrite is_space_asciiSpace. simpl. by destruct (asciiSpace c).
Qed.

Lemma noSpace_app a b : noSpace (a +:+ b) = noSpace a && noSpace b.
Proof.
  induction a as [|c a IH]; [done|]. rewrite append_String. simpl.
  by rewrite IH, andb_assoc.
Qed.

Lemma spaceOnly_app a b : spaceOnly (a +:+ b) = spaceOnly a && spaceOnly b.
Proof.
  induction a as [|c a IH]; [done|]. rewrite append_String. simpl.
  by rewrite IH, andb_assoc.
Qed.

Lemma noSpace_spaceOnly s : noSpace s = true → spaceOnly s = true.
Proof.
  induction s as [|c s IH]; [done|]. simpl.
  intros [Hc Hs]%andb_true_iff. rewrite Hc, (IH Hs). done.
Qed.

Definition fieldOK (f : string) : Prop := noSpace f = true ∧ f ≠ "".

Lemma flushField_ok cur : noSpace cur = true → Forall fieldOK (flushField cur).
Proof.
  intros Hc. unfold flushField. destruct (String.eqb_spec cur ""); by repeat constructor.
Qed.

Lemma fieldsFrom_ok s : ∀ skip cur,
  noSpace cur = true → Forall fieldOK (fieldsFrom skip cur s).
Proof.
  induction s as [|c s IH]; intros skip cur Hcur; [by apply flushField_ok|].
  cbn [fieldsFrom]. destruct skip as [|k]; [|by apply IH].
  destruct (spaceWidth (String c s)) as [|k] eqn:Hw.
  - apply IH. rewrite noSpace_app, Hcur. simpl.
    by rewrite (spaceWidth_0 c s Hw).
  - apply Forall_app. split; [by apply flushField_ok | by apply IH].
Qed.

Lemma Fields_ok s : Forall fieldOK (Fields s).
Proof. by apply fieldsFrom_ok. Qed.

Lemma Join_fields_spaceOnly fs :
  Forall fieldOK fs → fs ≠ [] → spaceOnly (Join fs " ") = true ∧ Join fs " " ≠ "".
Proof.
  induction fs as [|f rest IH]; intros Hfs Hne; [done|].
  inversion Hfs as [|? ? [Hf Hfne] Hrest]; subst.
  destruct rest as [|g rest'].
  - simpl. split; [by apply noSpace_spaceOnly | done].
  - rewrite Join_cons by done. destruct (IH Hrest) as [IH1 _]; [done|].
    split.
    + rewrite !spaceOnly_app, IH1, (noSpace_spaceOnly f Hf). done.
    + destruct f; [done|]. rewrite append_String. done.
Qed.

Lemma childrenOf_insert pt ppid l comm args ppid' :
  childrenOf {| Children := <[ppid := l]> (Children pt); Comm := comm; Args := args |}
    ppid'
  = if decide (ppid = ppid') then l else childrenOf pt ppid'.
Proof.
  unfold childrenOf. simpl. rewrite lookup_insert. by destruct (decide (ppid = ppid')).
Qed.

Lemma parseProcessLine_ok pt line : tableOK pt → tableOK (parseProcessLine pt line).
Proof.
  intros (Hch & Hcomm & Hargs). unfold parseProcessLine.
  pose proof (Fields_ok line) as Hf.
  destruct (Fields line) as [|f0 [|f1 [|f2 rest]]]; try done.
  destruct (Atoi f0) as [pid ok1]. destruct (Atoi f1) as [ppid ok2].
  destruct (ok1 && ok2); [|done].
  inversion Hf as [|? ? _ Hf1]; subst. inversion Hf1 as [|? ? _ Hf2]; subst.
  inversion Hf2 as [|? ? Hf2ok Hrest]; subst.
  assert (Hcomm' : ∀ q, is_Some (Comm pt !! q) → is_Some (<[pid := f2]> (Comm pt) !! q)).
  { intros q Hq. rewrite lookup_insert. by destruct (decide (pid = q)). }
  split; [|split].
  - intros ppid' q. rewrite childrenOf_insert. simpl.
    destruct (decide (ppid = ppid')) as [<-|_].
    + intros [H | ->%list_elem_of_singleton]%elem_of_app.
      * apply Hcomm'. by apply (Hch ppid).
      * rewrite lookup_insert_eq. by eexists.
    + intros H. apply Hcomm'. by apply (Hch ppid').
  - intros q c. simpl. rewrite lookup_insert.
    destruct (decide (pid = q)); [by intros [= <-] | apply Hcomm].
  - intros q a. cbn [Args Comm]. destruct rest as [|r rest'].
    + intros H. destruct (Hargs q a H) as (H1 & H2 & H3). split; [by apply Hcomm' | done].
    + rewrite lookup_insert. destruct (decide (pid = q)) as [<-|Hne].
      * intros Ha. injection Ha as <-.
        split; [rewrite lookup_insert_eq; by eexists|].
        assert (Hne' : r :: rest' ≠ []) by done.
        exact (Join_fields_spaceOnly (r :: rest') Hrest Hne').
      * intros H. destruct (Hargs q a H) as (H1 & H2 & H3).
        split; [by apply Hcomm' | done].
Qed.

Lemma ParseProcessTable_ok out : tableOK (ParseProcessTable out).
Proof.
  unfold ParseProcessTable.
  assert (Hgen : ∀ lines pt, tableOK pt → tableOK (fold_left parseProcessLine lines pt)).
  { induction lines as [|l rest IH]; intros pt Hpt; [done|].
    simpl. apply IH. by apply parseProcessLine_ok. }
  apply Hgen. split; [|split].
  - intros ppid pid H. by apply elem_of_nil in H.
  - intros pid c H. simpl in H. by rewrite lookup_empty in H.
  - intros pid a H. simpl in H. by rewrite lookup_empty in H.
Qed.

(** X15.  In the table [ParseProcessTable] builds, whatever the text: every
    pid listed as a child has a command; a command is not empty and has no
    white space; an argument string belongs to a pid with a command, is not
    empty and has no white space other than single spaces between its
    tokens. *)
Theorem ParseProcessTable_well_formed (out : string) :
  let pt := ParseProcessTable out in
  (∀ ppid pid, pid ∈ childrenOf pt ppid → is_Some (Comm pt !! pid))
  ∧ (∀ pid c, Comm pt !! pid = Some c → noSpace c = true ∧ c ≠ "")
  ∧ (∀ pid a, Args pt !! pid = Some a →
       is_Some (Comm pt !! pid) ∧ spaceOnly a = true ∧ a ≠ "").
Proof.
  intros pt. destruct (ParseProcessTable_ok out) as (Hchildren & Hcomm & Hargs).
  split; [exact Hchildren|]. split; [exact Hcomm | exact Hargs].
Qed.

(** X16.  On every process table [ParseProcessTable] builds, and for every
    registry that does not register the empty name, [Resolve] returns what
    the specification describes: the observed command when it is
    registered, otherwise the first registered name among the children's
    command basenames and white-space-separated, path-stripped argument
    tokens. *)
Theorem Resolve_on_parsed_table
  (registry : gmap string Provider) (out cmd : string) (shellPID : Z) :
  IsAgent registry "" = false →
  Resolve registry cmd shellPID (ParseProcessTable out)
  = spec_Resolve registry cmd shellPID (ParseProcessTable out).
Proof.
  intros Hreg. apply Resolve_spec_Resolve; [done|]. intros c _.
  destruct (ParseProcessTable_ok out) as (_ & _ & Hargs).
  unfold argsOf. destruct (Args (ParseProcessTable out) !! c) as [a|] eqn:E; [|done].
  by destruct (Hargs c a E) as (_ & H & _).
Qed.

Lemma Resolve_on_parsed_table_witness :
  let out := "  PID  PPID COMM ARGS" +:+ nl
             +:+ "  101   100 node node" +:+ tab +:+ "/opt/homebrew/bin/gemini --yolo"
             +:+ nl in
  Resolve registry0 "node" 100 (ParseProcessTable out) = "gemini"
  ∧ spec_Resolve registry0 "node" 100 (ParseProcessTable out) = "gemini".
Proof.
  intros out.
  assert (H : Resolve registry0 "node" 100 (ParseProcessTable out) = "gemini")
    by (by vm_compute).
  split; [exact H|].
  rewrite <- (Resolve_on_parsed_table registry0 out "node" 100 eq_refl). exact H.
Defined.

(** ** Listing the panes *)

Lemma cutFirst_app c a b :
  hasByte c a = false → cutFirst c (a +:+ String c b) = Some (a, b).
Proof.
  induction a as [|d a IH]; intros Ha.
  - change ("" +:+ String c b) with (String c b). simpl. by rewrite Ascii.eqb_refl.
  - simpl in Ha. apply orb_false_iff in Ha as [Hd Ha].
    rewrite append_String. simpl. by rewrite Hd, IH.
Qed.

Lemma cutFirst_count c s :
  match cutFirst c s with
  | None => countByte c s = 0%nat
  | Some (a, b) => countByte c s = S (countByte c b)
  end.
Proof.
  induction s as [|d s IH]; simpl; [done|].
  destruct (Ascii.eqb d c); [done|].
  destruct (cutFirst c s) as [[a b]|]; simpl; done.
Qed.

Lemma SplitN_length c n s :
  length (SplitN c (S n) s) = Nat.min (S n) (S (countByte c s)).
Proof.
  revert s. induction n as [|n IH]; intros s; [done|].
  change (SplitN c (S (S n)) s)
    with (match cutFirst c s with
          | Some (a, b) => a :: SplitN c (S n) b
          | None => [s]
          end).
  pose proof (cutFirst_count c s) as Hc.
  destruct (cutFirst c s) as [[a b]|].
  - change (length (a :: SplitN c (S n) b)) with (S (length (SplitN c (S n) b))).
    rewrite IH, Hc. lia.
  - rewrite Hc. done.
Qed.

(** X17.  A tmux row of four tab-separated fields whose first three hold no
    tab is read back field by field, the target split by [parseTarget] and
    the pid by [Atoi] (0 when it is no number); the fourth field keeps any
    further tab; and a line is skipped exactly when it has fewer than three
    tabs. *)
Theorem parsePaneLine_round_trip (target cmd path pidStr : string) :
  hasByte tabByte target = false → hasByte tabByte cmd = false →
  hasByte tabByte path = false →
  parsePaneLine (target +:+ tab +:+ cmd +:+ tab +:+ path +:+ tab +:+ pidStr)
  = Some {| r_target := target;
            r_session := (parseTarget target).1.1;
            r_window := (parseTarget target).1.2;
            r_pane := (parseTarget target).2;
            r_path := path; r_cmd := cmd; r_pid := (Atoi pidStr).1 |}
  ∧ (∀ line, parsePaneLine line = None ↔ (countByte tabByte line < 3)%nat).
Proof.
  intros Ht Hc Hp. split.
  - unfold parsePaneLine.
    assert (Hne : String.eqb
                    (target +:+ tab +:+ cmd +:+ tab +:+ path +:+ tab +:+ pidStr) ""
                  = false).
    { apply String.eqb_neq. destruct target; done. }
    rewrite Hne.
    change (target +:+ tab +:+ cmd +:+ tab +:+ path +:+ tab +:+ pidStr)
      with (target +:+ String tabByte
              (cmd +:+ String tabByte (path +:+ String tabByte pidStr))).
    change (SplitN tabByte 4 ?s)
      with (match cutFirst tabByte s with
            | Some (a, b) => a :: SplitN tabByte 3 b
            | None => [s]
            end).
    rewrite (cutFirst_app tabByte target) by done.
    change (SplitN tabByte 3 ?s)
      with (match cutFirst tabByte s with
            | Some (a, b) => a :: SplitN tabByte 2 b
            | None => [s]
            end).
    rewrite (cutFirst_app tabByte cmd) by done.
    change (SplitN tabByte 2 ?s)
      with (match cutFirst tabByte s with
            | Some (a, b) => a :: SplitN tabByte 1 b
            | None => [s]
            end).
    rewrite (cutFirst_app tabByte path) by done.
    change (SplitN tabByte 1 pidStr) with [pidStr].
    by destruct (parseTarget target) as [[session window] pane].
  - intros line. unfold parsePaneLine.
    destruct (String.eqb_spec line "") as [->|Hne]; [simpl; split; [lia | done]|].
    pose proof (SplitN_length tabByte 3 line) as Hlen.
    destruct (SplitN tabByte 4 line) as [|a [|b [|c [|d [|e rest]]]]];
      cbn [length] in Hlen; try (split; [lia | done]).
    destruct (parseTarget a) as [[session window] pane]. simpl.
    split; [done | lia].
Qed.

Lemma parsePaneLine_round_trip_witness :
  parsePaneLine ("main:2.1" +:+ tab +:+ "claude" +:+ tab +:+ "/home/u/proj"
                 +:+ tab +:+ "4242")
  = Some {| r_target := "main:2.1"; r_session := "main"; r_window := "2";
            r_pane := "1"; r_path := "/home/u/proj"; r_cmd := "claude";
            r_pid := 4242 |}.
Proof.
  destruct (parsePaneLine_round_trip "main:2.1" "claude" "/home/u/proj" "4242"
              eq_refl eq_refl eq_refl) as [H _].
  exact H.
Defined.

Lemma Resolve_emptyTable registry cmd shellPID :
  Resolve registry cmd shellPID emptyTable
  = if IsAgent registry cmd then cmd else "".
Proof. unfold Resolve. by destruct (IsAgent registry cmd). Qed.

Lemma resolveAgentPanes_emptyTable registry raw :
  IsAgent registry "" = false →
  resolveAgentPanes registry raw emptyTable
  = List.filter (fun r => IsAgent registry (r_cmd r)) raw.
Proof.
  intros Hreg. induction raw as [|r rest IH]; [done|]. simpl.
  rewrite Resolve_emptyTable. destruct (IsAgent registry (r_cmd r)) eqn:E.
  - destruct (String.eqb_spec (r_cmd r) "") as [E0|_]; [congruence|].
    rewrite IH. by destruct r.
  - simpl. exact IH.
Qed.

(** X18.  [ListPanes] and [ListPanesBasic] fail exactly when the tmux
    listing fails, whatever the history and the process snapshot; when it
    succeeds they return the same panes in the same order, those of
    [ListPanesBasic] all idle and those of [ListPanes] differing from them
    in the status only; and when the process snapshot fails (and the empty
    name is not registered) the panes kept are the rows whose foreground
    command is itself a registered name. *)
Theorem ListPanes_same_panes_as_basic
  (registry : gmap string Provider) (capturePaneLines : string → list string)
  (tmuxOut : option string) (history : option (gmap string Z))
  (psOut : option string) :
  let full := ListPanes registry capturePaneLines tmuxOut history psOut in
  let basic := ListPanesBasic registry tmuxOut history psOut in
  (full = None ↔ tmuxOut = None)
  ∧ (basic = None ↔ tmuxOut = None)
  ∧ (∀ ps, full = Some ps → basic = Some (withStatus StatusIdle <$> ps))
  ∧ (∀ ps, basic = Some ps → Forall (fun p => Status p = StatusIdle) ps)
  ∧ (∀ out, IsAgent registry "" = false → tmuxOut = Some out → psOut = None →
       basic
       = Some (paneOfRaw history StatusIdle
                 <$> List.filter (fun r => IsAgent registry (r_cmd r))
                       (parseTmuxPanes out))).
Proof.
  intros full basic. subst full basic. unfold ListPanes, ListPanesBasic.
  destruct tmuxOut as [out|]; [|by repeat split].
  split; [done|]. split; [done|]. split; [|split].
  - intros ps [= <-]. f_equal. rewrite <- list_fmap_compose.
    apply list_fmap_ext. intros i r _. done.
  - intros ps [= <-]. apply Forall_fmap, Forall_true. done.
  - intros out' Hreg [= <-] ->. simpl. by rewrite resolveAgentPanes_emptyTable.
Qed.

Lemma ListPanes_same_panes_as_basic_witness :
  let out := "main:2.1" +:+ tab +:+ "claude" +:+ tab +:+ "/home/u/proj"
             +:+ tab +:+ "4242" +:+ nl
             +:+ "main:3.0" +:+ tab +:+ "zsh" +:+ tab +:+ "/tmp" +:+ tab +:+ "77"
             +:+ nl in
  ListPanesBasic registry0 (Some out) None None
  = Some [paneOfRaw None StatusIdle
            {| r_target := "main:2.1"; r_session := "main"; r_window := "2";
               r_pane := "1"; r_path := "/home/u/proj"; r_cmd := "claude";
               r_pid := 4242 |}].
Proof.
  intros out.
  destruct (ListPanes_same_panes_as_basic registry0 (fun _ => []) (Some out) None None)
    as (_ & _ & _ & _ & H).
  rewrite (H out eq_refl eq_refl eq_refl). by vm_compute.
Defined.

(** ** Keys on the pane under the cursor *)

Lemma updateKey_disarms m key m' cmd sw :
  key ≠ "d" → updateKey m key = Some (m', cmd, sw) → pendingD m' = false.
Proof.
  intros Hne. unfold updateKey.
  destruct (String.eqb_spec key "d") as [E|_]; [done|].
  destruct (String.eqb key "q" || String.eqb key "esc" || String.eqb key "ctrl+c");
    [by intros [= <- _ _]|].
  destruct (String.eqb key "j" || String.eqb key "down").
  { destruct (NextPane _ _) as [r|]; [|done]. simpl.
    destruct (negb (r =? _)); [|by intros [= <- _ _]].
    destruct (previewCmd _) as [c|] eqn:E; [|done]. simpl. by intros [= <- _ _]. }
  destruct (String.eqb key "k" || String.eqb key "up").
  { destruct (PrevPane _ _) as [r|]; [|done]. simpl.
    destruct (negb (r =? _)); [|by intros [= <- _ _]].
    destruct (previewCmd _) as [c|] eqn:E; [|done]. simpl. by intros [= <- _ _]. }
  destruct (String.eqb key "enter"); [|by intros [= <- _ _]].
  destruct (_ && _); [|by intros [= <- _ _]].
  destruct (at_ _ _) as [it|]; [|done]. simpl.
  destruct (isPane it); [|by intros [= <- _ _]].
  destruct (paneOf _ it) as [p|]; [|done]. simpl. by intros [= <- _ _].
Qed.

(** X19.  With the cursor on a pane row of a model whose items are the
    flattening of its workspaces: the enter key hands the target of that
    pane to [SwitchToPane] and quits; a first "d" only arms the kill and a
    second "d" returns the command that kills that same pane; every other
    key leaves the kill disarmed. *)
Theorem keys_act_on_pane_under_cursor (m : Model) :
  cursorOK m → paneAt (items m) (cursor m) = true →
  ∃ it p,
    at_ (items m) (cursor m) = Some it
    ∧ paneOf (workspaces m) it = Some p
    ∧ updateKey m "enter" = Some (setPendingD m false, Quit, Some (Target p))
    ∧ updateKey (setPendingD m false) "d" = Some (setPendingD m true, CmdNil, None)
    ∧ updateKey (setPendingD m true) "d"
      = Some (setPendingD m false, killPane (Target p), None)
    ∧ (∀ key, key ≠ "d" →
         ∃ m' cmd sw, updateKey (setPendingD m true) key = Some (m', cmd, sw)
                      ∧ pendingD m' = false).
Proof.
  intros Hok Hp. pose proof (cursorOK_refs m Hok) as Hrefs.
  pose proof (paneAt_range _ _ Hp) as Hr.
  unfold paneAt in Hp. destruct (at_ (items m) (cursor m)) as [it|] eqn:Hit; [|done].
  destruct (Hrefs it) as [p Hpane]; [|done|].
  { unfold at_ in Hit. destruct (cursor m <? 0); [done|].
    by apply list_elem_of_lookup_2 in Hit. }
  exists it, p. split; [done|]. split; [done|].
  assert (Hin : (cursor m <? 0) || (Z.of_nat (length (items m)) <=? cursor m) = false).
  { apply orb_false_iff. split; [apply Z.ltb_ge | apply Z.leb_gt]; lia. }
  assert (Hin' : (0 <=? cursor m) && (cursor m <? Z.of_nat (length (items m))) = true).
  { apply andb_true_iff. split; [apply Z.leb_le | apply Z.ltb_lt]; lia. }
  split; [|split; [|split]].
  - unfold updateKey. simpl. rewrite Hin', Hit. simpl. rewrite Hp, Hpane. done.
  - done.
  - unfold updateKey, killCurrentPane, currentTarget. simpl.
    rewrite Hin, Hit. simpl. rewrite Hp. simpl. rewrite Hpane. done.
  - intros key Hne.
    destruct (updateKey_keeps_cursor (setPendingD m true) key Hok)
      as (m' & cmd & sw & Hu & _).
    exists m', cmd, sw. split; [done|]. by apply updateKey_disarms in Hu.
Qed.

Lemma keys_act_on_pane_under_cursor_witness :
  let host := {| homeDir := "/home/u"; gitHead := fun _ => None |} in
  let m := NewModel host [examplePane StatusIdle] None in
  updateKey m "enter" = Some (setPendingD m false, Quit, Some "main:2.1").
Proof.
  intros host m.
  assert (Hok : cursorOK m).
  { unfold cursorOK. split; [reflexivity|]. split; [by vm_compute|].
    split; [|right; reflexivity].
    intros ws [-> | H]%elem_of_cons; [done | by apply elem_of_nil in H]. }
  destruct (keys_act_on_pane_under_cursor m Hok eq_refl)
    as (it & p & Hit & Hpane & Henter & _).
  rewrite Henter. vm_compute in Hit. injection Hit as <-.
  vm_compute in Hpane. injection Hpane as <-. reflexivity.
Defined.

(** ** The branch label *)

Lemma dropBytes_app pre s : dropBytes (len pre) (pre +:+ s) = s.
Proof. induction pre as [|c pre IH]; [by destruct s|]. rewrite append_String. exact IH. Qed.

(** X20.  [gitBranch] is empty when [.git/HEAD] cannot be read; when its
    trimmed content is "ref: refs/heads/" followed by a name it is that
    name; otherwise it is the content itself when that is shorter than 8
    bytes, and else its first 8 bytes. *)
Theorem gitBranch_reads_head (host : Host) (dir : string) :
  (gitHead host dir = None → gitBranch host dir = "")
  ∧ (∀ data branch, gitHead host dir = Some data →
       TrimSpace data = "ref: refs/heads/" +:+ branch →
       gitBranch host dir = branch)
  ∧ (∀ data, gitHead host dir = Some data →
       HasPrefix (TrimSpace data) "ref: refs/heads/" = false →
       (len (gitBranch host dir) ≤ 8)%nat
       ∧ (∃ rest, TrimSpace data = gitBranch host dir +:+ rest)
       ∧ ((len (TrimSpace data) < 8)%nat → gitBranch host dir = TrimSpace data)
       ∧ ((8 ≤ len (TrimSpace data))%nat → len (gitBranch host dir) = 8%nat)).
Proof.
  unfold gitBranch. split; [by intros ->|]. split.
  - intros data branch -> Href. rewrite Href.
    assert (Hp : HasPrefix ("ref: refs/heads/" +:+ branch) "ref: refs/heads/" = true).
    { apply HasPrefix_spec. by exists branch. }
    rewrite Hp. apply (dropBytes_app "ref: refs/heads/").
  - intros data -> Hno. rewrite Hno. unfold len.
    destruct (Nat.leb_spec 8 (String.length (TrimSpace data))) as [Hlong|Hshort].
    + destruct (substring_prefix 8 (TrimSpace data)) as (rest & Hrest & Hlen).
      split; [lia|]. split; [by exists rest|]. split; [lia|]. intros _. lia.
    + split; [lia|]. split; [exists ""; by rewrite append_empty_r|].
      split; [done | lia].
Qed.

Lemma gitBranch_reads_head_witness :
  gitBranch {| homeDir := ""; gitHead := fun _ => Some ("ref: refs/heads/main" +:+ nl) |}
    "/a"
  = "main".
Proof.
  destruct (gitBranch_reads_head
              {| homeDir := ""; gitHead := fun _ => Some ("ref: refs/heads/main" +:+ nl) |}
              "/a") as (_ & H & _).
  apply (H ("ref: refs/heads/main" +:+ nl)); [reflexivity | by vm_compute].
Defined.

(** ** A growing log *)

(** X21.  When lines are appended to the log, every project the scan knew
    stays in the mapping and its timestamp never goes back. *)
Theorem historyScan_append_monotone
  (lines more : list decodedLine) (p : string) (t : Z) :
  historyScan lines !! p = Some t →
  ∃ t', historyScan (lines ++ more) !! p = Some t' ∧ t ≤ t'.
Proof.
  intros Ht. apply historyScan_lookup in Ht as [(e & He & Hv & Hp & Hte) _].
  assert (He' : Some e ∈ lines ++ more) by (apply elem_of_app; by left).
  pose proof (historyScan_inv (lines ++ more) p) as Hinv.
  destruct (historyScan (lines ++ more) !! p) as [t'|].
  - exists t'. split; [done|]. destruct Hinv as [_ Hmax].
    specialize (Hmax e He' Hv Hp). lia.
  - exfalso. by apply (Hinv e He' Hv).
Qed.

Lemma historyScan_append_monotone_witness :
  ∃ t', historyScan ([Some {| Timestamp := 100; Project := "/a" |}]
                     ++ [Some {| Timestamp := 50; Project := "/a" |}]) !! "/a"
        = Some t' ∧ 100 ≤ t'.
Proof.
  apply (historyScan_append_monotone
           [Some {| Timestamp := 100; Project := "/a" |}]
           [Some {| Timestamp := 50; Project := "/a" |}] "/a" 100).
  by vm_compute.
Defined.
